(** * Listen Together: the live session hub

    A shallow embedding of [server/listentogether/hub.go].

    - A [LiveSession] is a record; every handler is a function from the
      session to the new session and the list of effects it performs, in
      program order (sends on participants' channels, closing channels and
      connections, evicting the session from the hub).
    - A send on a participant's channel is always the non-blocking
      [select { case p.sendCh <- msg: default: }]; it is the effect
      [TrySend], and its meaning on a buffered channel of capacity
      [sendChannelSize] is [trySend] (enqueue when there is room, drop when
      full).
    - What the code takes from outside the repository is gathered in the
      class [External]: the JSON decoders of command payloads, the media
      library lookup, the token signer, and the order in which Go visits a
      map in a [range] loop.
    - Go's [int] is modelled by [Z] (no operation of the hub can overflow:
      indices are bounded by slice lengths), except for the entries of
      [queue], which are only ever produced from slice lengths and loop
      indices and are kept in [nat]; [float64] by the primitive binary64
      floats, [time.Time] by [Z] (an instant). *)

From Stdlib Require Import ZArith Lia ZifyBool Floats.PrimFloat.
From stdpp Require Import gmap strings list fin_maps.

Local Open Scope string_scope.
Local Open Scope list_scope.
Local Open Scope nat_scope.

(** ** Constants *)

Definition sendChannelSize : nat := 16.

(** ** Data model *)

Module MediaFile.
(** The fields of [model.MediaFile] that the hub reads. *)
Record t := mk {
  ID : string;
  Title : string;
  Artist : string;
  Album : string;
  Duration : float;
}.
End MediaFile.

Module ListenSession.
(** The fields of [model.ListenSession] that the hub reads. *)
Record t := mk {
  ID : string;
  UserID : string;
  Format : string;
  MaxBitRate : Z;
  Tracks : list MediaFile.t;
}.
End ListenSession.

Module TrackInfo.
Record t := mk {
  ID : string;
  Token : string;
  Title : string;
  Artist : string;
  Album : string;
  Duration : float;
  MediaFileID : string;
}.
(** The zero value of the struct. *)
Definition zero : t := mk "" "" "" "" "" 0%float "".
End TrackInfo.

Module Participant.
(** [conn] and [sendCh] are handles; the connection and the channel of a
    participant are named by the participant's [ID]. *)
Record t := mk {
  ID : string;
  Name : string;
  IsHost : bool;
  JoinedAt : Z;
}.
End Participant.

Module StatePayload.
Record t := mk {
  Action : string;
  CurrentTrackIndex : Z;
  Position : float;
  IsPlaying : bool;
  Queue : list TrackInfo.t;
}.
End StatePayload.

Module ParticipantInfo.
Record t := mk {
  ID : string;
  Name : string;
  IsHost : bool;
}.
End ParticipantInfo.

Module RemotePayload.
Record t := mk {
  HolderID : string;
  HolderName : string;
}.
End RemotePayload.

(** [json.RawMessage]: the payload of an inbound command is the raw text the
    client sent ([PRaw]); the payload of an outbound message is the JSON
    encoding of one of the structs below, kept here as the struct itself. *)
Inductive Payload :=
  | PNone
  | PRaw (json : string)
  | PState (s : StatePayload.t)
  | PParticipants (l : list ParticipantInfo.t)
  | PRemote (r : RemotePayload.t)
  | PRemoteRequested (FromID FromName : string)
  | PError (Message : string)
  | PWelcome (YourID : string).

Module WSMessage.
Record t := mk {
  Type_ : string;
  Action : string;
  Payload : Payload;
}.
End WSMessage.

Record LiveSession := mkLiveSession {
  sessionID : string;
  hostUserID : string;
  format : string;
  maxBitRate : Z;
  tracks : list TrackInfo.t;
  queue : list nat;
  currentIndex : Z;
  position : float;
  isPlaying : bool;
  remoteHolder : string;
  participants : gmap string Participant.t;
  graceTimer : bool;
}.

(** Field updates. *)

Definition set_tracks (v : list TrackInfo.t) (ls : LiveSession) : LiveSession :=
  mkLiveSession (sessionID ls) (hostUserID ls) (format ls) (maxBitRate ls)
    v (queue ls) (currentIndex ls) (position ls) (isPlaying ls)
    (remoteHolder ls) (participants ls) (graceTimer ls).

Definition set_queue (v : list nat) (ls : LiveSession) : LiveSession :=
  mkLiveSession (sessionID ls) (hostUserID ls) (format ls) (maxBitRate ls)
    (tracks ls) v (currentIndex ls) (position ls) (isPlaying ls)
    (remoteHolder ls) (participants ls) (graceTimer ls).

Definition set_currentIndex (v : Z) (ls : LiveSession) : LiveSession :=
  mkLiveSession (sessionID ls) (hostUserID ls) (format ls) (maxBitRate ls)
    (tracks ls) (queue ls) v (position ls) (isPlaying ls)
    (remoteHolder ls) (participants ls) (graceTimer ls).

Definition set_position (v : float) (ls : LiveSession) : LiveSession :=
  mkLiveSession (sessionID ls) (hostUserID ls) (format ls) (maxBitRate ls)
    (tracks ls) (queue ls) (currentIndex ls) v (isPlaying ls)
    (remoteHolder ls) (participants ls) (graceTimer ls).

Definition set_isPlaying (v : bool) (ls : LiveSession) : LiveSession :=
  mkLiveSession (sessionID ls) (hostUserID ls) (format ls) (maxBitRate ls)
    (tracks ls) (queue ls) (currentIndex ls) (position ls) v
    (remoteHolder ls) (participants ls) (graceTimer ls).

Definition set_remoteHolder (v : string) (ls : LiveSession) : LiveSession :=
  mkLiveSession (sessionID ls) (hostUserID ls) (format ls) (maxBitRate ls)
    (tracks ls) (queue ls) (currentIndex ls) (position ls) (isPlaying ls)
    v (participants ls) (graceTimer ls).

Definition set_participants (v : gmap string Participant.t) (ls : LiveSession)
  : LiveSession :=
  mkLiveSession (sessionID ls) (hostUserID ls) (format ls) (maxBitRate ls)
    (tracks ls) (queue ls) (currentIndex ls) (position ls) (isPlaying ls)
    (remoteHolder ls) v (graceTimer ls).

Definition set_graceTimer (v : bool) (ls : LiveSession) : LiveSession :=
  mkLiveSession (sessionID ls) (hostUserID ls) (format ls) (maxBitRate ls)
    (tracks ls) (queue ls) (currentIndex ls) (position ls) (isPlaying ls)
    (remoteHolder ls) (participants ls) v.

(** ** Effects *)

Inductive Effect :=
  | TrySend (to : string) (msg : WSMessage.t)
      (* select { case p.sendCh <- msg: default: } *)
  | CloseCh (pid : string)      (* close(p.sendCh) *)
  | ConnClose (pid : string)    (* p.conn.Close() *)
  | HubRemove (sid : string).   (* ls.hub.removeSession(sid) *)

(** ** What the hub takes from outside the repository *)

Inductive ClaimValue :=
  | CStr (s : string)
  | CInt (n : Z).

Class External := {
  (* the order in which [for _, p := range m] visits the map [m] *)
  rangeOrder : gmap string Participant.t → list Participant.t;
  (* json.Unmarshal of a command payload into the handler's struct;
     [None] is a decoding error *)
  unmarshalSeek : Payload → option float;
  unmarshalSync : Payload → option (float * Z);
  unmarshalParticipantID : Payload → option string;
  unmarshalMediaFileID : Payload → option string;
  unmarshalQueuePosition : Payload → option Z;
  unmarshalReorder : Payload → option (Z * Z);
  (* ls.hub.ds.MediaFile(ctx).Get(id); [None] is an error *)
  mediaFileGet : string → option MediaFile.t;
  (* auth.CreateExpiringPublicToken(expiry, claims) *)
  createExpiringPublicToken : gmap string ClaimValue → string;
}.

(** A [range] loop visits every entry of the map exactly once, in an order
    the language does not fix. *)
Definition RangeOK (E : External) : Prop :=
  ∀ m, rangeOrder m ≡ₚ (map_to_list m).*2.

(** ** Slices *)

(** [append(q[:i], q[i+1:]...)] *)
Definition removeAt {A} (i : nat) (q : list A) : list A :=
  take i q ++ drop (S i) q.

(** [append(append(append(new, q[:i]...), x), q[i:]...)] *)
Definition insertAt {A} (i : nat) (x : A) (q : list A) : list A :=
  take i q ++ [x] ++ drop i q.

(** [l[i]] for a Go [int] index, [None] where Go panics. *)
Definition indexZ {A} (l : list A) (i : Z) : option A :=
  if (i <? 0)%Z then None else l !! Z.to_nat i.

(** [tracks[queue[currentIndex]]] *)
Definition currentTrack (ls : LiveSession) : option TrackInfo.t :=
  indexZ (queue ls) (currentIndex ls) ≫= λ idx, tracks ls !! idx.

(** ** The session *)

Section Session.
Context `{E : !External}.

Definition generateStreamToken (mediaFileID fmt : string) (maxBR : Z)
  : string :=
  let claims : gmap string ClaimValue := {[ "id" := CStr mediaFileID ]} in
  let claims := if String.eqb fmt "" then claims
                else <["f" := CStr fmt]> claims in
  let claims := if (maxBR =? 0)%Z then claims
                else <["b" := CInt maxBR]> claims in
  createExpiringPublicToken claims.

(** The [TrackInfo] literal of [CreateSession] and [handleQueueAdd]. *)
Definition trackInfoOf (mf : MediaFile.t) (fmt : string) (maxBR : Z)
  : TrackInfo.t :=
  TrackInfo.mk (MediaFile.ID mf)
    (generateStreamToken (MediaFile.ID mf) fmt maxBR)
    (MediaFile.Title mf) (MediaFile.Artist mf) (MediaFile.Album mf)
    (MediaFile.Duration mf) (MediaFile.ID mf).

(** The [LiveSession] that [CreateSession] builds for a descriptor. *)
Definition newLiveSession (session : ListenSession.t) : LiveSession :=
  let ts := ListenSession.Tracks session in
  {| sessionID := ListenSession.ID session;
     hostUserID := ListenSession.UserID session;
     format := ListenSession.Format session;
     maxBitRate := ListenSession.MaxBitRate session;
     tracks := map (λ mf, trackInfoOf mf (ListenSession.Format session)
                            (ListenSession.MaxBitRate session)) ts;
     queue := seq 0 (length ts);
     currentIndex := 0;
     position := 0%float;
     isPlaying := false;
     remoteHolder := "";
     participants := ∅;
     graceTimer := false |}.

(** [Join]; [id] is [uuid.New().String()] and [now] is [time.Now()]. *)
Definition Join (id : string) (now : Z) (name : string) (isHost : bool)
    (ls : LiveSession) : LiveSession * Participant.t :=
  let ls := set_graceTimer false ls in
  let p := Participant.mk id name isHost now in
  let ls := set_participants (<[Participant.ID p := p]> (participants ls)) ls in
  let ls := if String.eqb (remoteHolder ls) "" || isHost
            then set_remoteHolder (Participant.ID p) ls else ls in
  (ls, p).

(** The loop of [findLongestConnected], over the participants in the
    order they are visited. *)
Fixpoint oldestOf (oldest : option Participant.t) (ps : list Participant.t)
  : option Participant.t :=
  match ps with
  | [] => oldest
  | p :: ps =>
      match oldest with
      | None => oldestOf (Some p) ps
      | Some o =>
          if (Participant.JoinedAt p <? Participant.JoinedAt o)%Z
          then oldestOf (Some p) ps
          else oldestOf (Some o) ps
      end
  end.

Definition findLongestConnected (ls : LiveSession) : string :=
  match oldestOf None (rangeOrder (participants ls)) with
  | Some oldest => Participant.ID oldest
  | None => ""
  end.

(** One non-blocking send of [msg] to every participant. *)
Definition sendAll (ls : LiveSession) (msg : WSMessage.t) : list Effect :=
  map (λ p, TrySend (Participant.ID p) msg) (rangeOrder (participants ls)).

Definition stateOf (ls : LiveSession) (action : string) : StatePayload.t :=
  StatePayload.mk action (currentIndex ls) (position ls) (isPlaying ls)
    (map (λ idx, if (idx <? length (tracks ls))%nat
                 then default TrackInfo.zero (tracks ls !! idx)
                 else TrackInfo.zero) (queue ls)).

Definition broadcastState (ls : LiveSession) (action : string)
  : list Effect :=
  sendAll ls (WSMessage.mk "state" "" (PState (stateOf ls action))).

Definition broadcastParticipants (ls : LiveSession) : list Effect :=
  let infos :=
    map (λ p, ParticipantInfo.mk (Participant.ID p) (Participant.Name p)
                (Participant.IsHost p)) (rangeOrder (participants ls)) in
  sendAll ls (WSMessage.mk "participants" "" (PParticipants infos)).

Definition broadcastRemote (ls : LiveSession) : list Effect :=
  let holderID := remoteHolder ls in
  let holderName := match participants ls !! holderID with
                    | Some holder => Participant.Name holder
                    | None => ""
                    end in
  sendAll ls
    (WSMessage.mk "remote" "" (PRemote (RemotePayload.mk holderID holderName))).

Definition errorMsg (errMsg : string) : WSMessage.t :=
  WSMessage.mk "error" "" (PError errMsg).

Definition sendError (p : Participant.t) (errMsg : string) : list Effect :=
  [TrySend (Participant.ID p) (errorMsg errMsg)].

(** [Leave]. The grace timer it arms is the flag [graceTimer]; the
    callback of the timer is [graceExpired] below. *)
Definition Leave (participantID : string) (ls : LiveSession)
  : LiveSession * list Effect :=
  match participants ls !! participantID with
  | None => (ls, [])
  | Some p =>
      let ls := set_participants (delete participantID (participants ls)) ls in
      let ls := if String.eqb (remoteHolder ls) participantID
                then set_remoteHolder (findLongestConnected ls) ls else ls in
      let remaining := size (participants ls) in
      let newRemoteHolder := remoteHolder ls in
      if (remaining =? 0)%nat
      then (set_graceTimer true ls, [CloseCh (Participant.ID p)])
      else (ls, CloseCh (Participant.ID p)
                  :: broadcastParticipants ls
                  ++ (if String.eqb newRemoteHolder "" then []
                      else broadcastRemote ls))
  end.

(** The callback of the grace timer. *)
Definition graceExpired (ls : LiveSession) : list Effect :=
  if (size (participants ls) =? 0)%nat then [HubRemove (sessionID ls)] else [].

Definition isRemoteHolder (ls : LiveSession) (p : Participant.t) : bool :=
  String.eqb (remoteHolder ls) (Participant.ID p).

Definition handlePlay (sender : Participant.t) (ls : LiveSession)
  : LiveSession * list Effect :=
  if negb (isRemoteHolder ls sender)
  then (ls, sendError sender "only the remote holder can control playback")
  else
    let ls := set_isPlaying true ls in
    (ls, broadcastState ls "play").

Definition handlePause (sender : Participant.t) (ls : LiveSession)
  : LiveSession * list Effect :=
  if negb (isRemoteHolder ls sender)
  then (ls, sendError sender "only the remote holder can control playback")
  else
    let ls := set_isPlaying false ls in
    (ls, broadcastState ls "pause").

Definition handleSeek (sender : Participant.t) (payload : Payload)
    (ls : LiveSession) : LiveSession * list Effect :=
  if negb (isRemoteHolder ls sender)
  then (ls, sendError sender "only the remote holder can control playback")
  else
    match unmarshalSeek payload with
    | None => (ls, sendError sender "invalid seek payload")
    | Some pos =>
        let ls := set_position pos ls in
        (ls, broadcastState ls "seek")
    end.

Definition handleSkipNext (sender : Participant.t) (ls : LiveSession)
  : LiveSession * list Effect :=
  if negb (isRemoteHolder ls sender)
  then (ls, sendError sender "only the remote holder can control playback")
  else
    let ls := if (currentIndex ls <? Z.of_nat (length (queue ls)) - 1)%Z
              then set_position 0%float
                     (set_currentIndex (currentIndex ls + 1)%Z ls)
              else ls in
    (ls, broadcastState ls "skip_next").

Definition handleSkipPrev (sender : Participant.t) (ls : LiveSession)
  : LiveSession * list Effect :=
  if negb (isRemoteHolder ls sender)
  then (ls, sendError sender "only the remote holder can control playback")
  else
    let ls := if (0 <? currentIndex ls)%Z
              then set_position 0%float
                     (set_currentIndex (currentIndex ls - 1)%Z ls)
              else ls in
    (ls, broadcastState ls "skip_prev").

Definition handleSync (sender : Participant.t) (payload : Payload)
    (ls : LiveSession) : LiveSession * list Effect :=
  if negb (isRemoteHolder ls sender)
  then (ls, [])
  else
    match unmarshalSync payload with
    | None => (ls, [])
    | Some (pos, trackIndex) =>
        let ls := set_position pos ls in
        let ls := if (0 <=? trackIndex)%Z
                     && (trackIndex <? Z.of_nat (length (queue ls)))%Z
                  then set_currentIndex trackIndex ls else ls in
        (ls, [])
    end.

Definition handlePassRemote (sender : Participant.t) (payload : Payload)
    (ls : LiveSession) : LiveSession * list Effect :=
  if negb (isRemoteHolder ls sender)
  then (ls, sendError sender "only the remote holder can pass the remote")
  else
    match unmarshalParticipantID payload with
    | None => (ls, sendError sender "invalid pass_remote payload")
    | Some participantID =>
        match participants ls !! participantID with
        | None => (ls, sendError sender "participant not found")
        | Some _ =>
            let ls := set_remoteHolder participantID ls in
            (ls, broadcastRemote ls)
        end
    end.

Definition handleRequestRemote (sender : Participant.t) (ls : LiveSession)
  : LiveSession * list Effect :=
  match participants ls !! remoteHolder ls with
  | None => (ls, [])
  | Some holder =>
      (ls, [TrySend (Participant.ID holder)
              (WSMessage.mk "remote_requested" ""
                 (PRemoteRequested (Participant.ID sender)
                    (Participant.Name sender)))])
  end.

Definition handleAcceptRemoteRequest (sender : Participant.t)
    (payload : Payload) (ls : LiveSession) : LiveSession * list Effect :=
  if negb (isRemoteHolder ls sender)
  then (ls, sendError sender "only the remote holder can accept requests")
  else
    match unmarshalParticipantID payload with
    | None => (ls, sendError sender "invalid accept payload")
    | Some participantID =>
        match participants ls !! participantID with
        | None => (ls, sendError sender "participant not found")
        | Some _ =>
            let ls := set_remoteHolder participantID ls in
            (ls, broadcastRemote ls)
        end
    end.

Definition handleQueueAdd (sender : Participant.t) (payload : Payload)
    (ls : LiveSession) : LiveSession * list Effect :=
  if negb (isRemoteHolder ls sender)
  then (ls, sendError sender "only the remote holder can modify the queue")
  else
    match unmarshalMediaFileID payload with
    | None => (ls, sendError sender "invalid queue_add payload")
    | Some mediaFileID =>
        match mediaFileGet mediaFileID with
        | None => (ls, sendError sender "track not found")
        | Some mf =>
            let track := trackInfoOf mf (format ls) (maxBitRate ls) in
            let newIdx := length (tracks ls) in
            let ls := set_tracks (tracks ls ++ [track]) ls in
            let ls := set_queue (queue ls ++ [newIdx]) ls in
            (ls, broadcastState ls "queue_add")
        end
    end.

Definition handleQueueRemove (sender : Participant.t) (payload : Payload)
    (ls : LiveSession) : LiveSession * list Effect :=
  if negb (isRemoteHolder ls sender)
  then (ls, sendError sender "only the remote holder can modify the queue")
  else
    match unmarshalQueuePosition payload with
    | None => (ls, sendError sender "invalid queue_remove payload")
    | Some queuePosition =>
        if (queuePosition <? 0)%Z
           || (Z.of_nat (length (queue ls)) <=? queuePosition)%Z
        then (ls, sendError sender "invalid queue position")
        else if (queuePosition =? currentIndex ls)%Z
        then (ls, sendError sender "cannot remove the currently playing track")
        else
          let old := currentIndex ls in
          let ls := set_queue (removeAt (Z.to_nat queuePosition) (queue ls)) ls in
          let ls := if (queuePosition <? old)%Z
                    then set_currentIndex (old - 1)%Z ls else ls in
          (ls, broadcastState ls "queue_remove")
    end.

Definition handleQueueReorder (sender : Participant.t) (payload : Payload)
    (ls : LiveSession) : LiveSession * list Effect :=
  if negb (isRemoteHolder ls sender)
  then (ls, sendError sender "only the remote holder can modify the queue")
  else
    match unmarshalReorder payload with
    | None => (ls, sendError sender "invalid queue_reorder payload")
    | Some (from, to) =>
        let n := Z.of_nat (length (queue ls)) in
        if (from <? 0)%Z || (n <=? from)%Z || (to <? 0)%Z || (n <=? to)%Z
        then (ls, sendError sender "invalid queue positions")
        else
          let item := queue ls !!! Z.to_nat from in
          let q := removeAt (Z.to_nat from) (queue ls) in
          let newQueue := insertAt (Z.to_nat to) item q in
          let cur := currentIndex ls in
          let ls := set_queue newQueue ls in
          let ls :=
            if (from =? cur)%Z then set_currentIndex to ls
            else if (from <? cur)%Z && (cur <=? to)%Z
            then set_currentIndex (cur - 1)%Z ls
            else if (cur <? from)%Z && (to <=? cur)%Z
            then set_currentIndex (cur + 1)%Z ls
            else ls in
          (ls, broadcastState ls "queue_reorder")
    end.

Definition endMsg : WSMessage.t := WSMessage.mk "error" "session_ended" PNone.

Definition handleEndSession (sender : Participant.t) (ls : LiveSession)
  : LiveSession * list Effect :=
  if negb (isRemoteHolder ls sender)
  then (ls, sendError sender "only the remote holder can end the session")
  else
    (ls, flat_map (λ p, [TrySend (Participant.ID p) endMsg;
                          ConnClose (Participant.ID p)])
           (rangeOrder (participants ls))
         ++ [HubRemove (sessionID ls)]).

Definition HandleMessage (sender : Participant.t) (msg : WSMessage.t)
    (ls : LiveSession) : LiveSession * list Effect :=
  let action := WSMessage.Action msg in
  let payload := WSMessage.Payload msg in
  if String.eqb action "play" then handlePlay sender ls
  else if String.eqb action "pause" then handlePause sender ls
  else if String.eqb action "seek" then handleSeek sender payload ls
  else if String.eqb action "skip_next" then handleSkipNext sender ls
  else if String.eqb action "skip_prev" then handleSkipPrev sender ls
  else if String.eqb action "sync" then handleSync sender payload ls
  else if String.eqb action "pass_remote"
  then handlePassRemote sender payload ls
  else if String.eqb action "request_remote"
  then handleRequestRemote sender ls
  else if String.eqb action "accept_remote_request"
  then handleAcceptRemoteRequest sender payload ls
  else if String.eqb action "queue_add" then handleQueueAdd sender payload ls
  else if String.eqb action "queue_remove"
  then handleQueueRemove sender payload ls
  else if String.eqb action "queue_reorder"
  then handleQueueReorder sender payload ls
  else if String.eqb action "end_session" then handleEndSession sender ls
  else (ls, sendError sender ("unknown action: " +:+ action)).

End Session.

Arguments rangeOrder : simpl never.

(** ** Sessions that can arise

    A session is built by [CreateSession]; from then on it is changed only
    by [Join], [Leave] and [HandleMessage]. The environment may differ from
    one call to the next (the map order, the media library). The sender of
    a command is any participant value.

    Every call is one step: these are the runs in which a call returns
    before the next one starts on the same session. [Join] and the
    handlers hold the session's lock for all their changes of the state.
    [Leave] does not: it releases the lock after it has removed the
    participant and takes it again to arm the grace timer, and a [Join]
    that runs in between is not a run of [reachable]. *)

(** [uuid.New().String()] is the 36-character canonical form. *)
Definition isUUID (s : string) : Prop := String.length s = 36.

Inductive reachable : LiveSession → Prop :=
  | reach_CreateSession (E : External) session :
      reachable (newLiveSession session)
  | reach_Join id now name isHost ls :
      isUUID id → reachable ls →
      reachable (Join id now name isHost ls).1
  | reach_Leave (E : External) participantID ls :
      RangeOK E → reachable ls →
      reachable (Leave participantID ls).1
  | reach_HandleMessage (E : External) sender msg ls :
      RangeOK E → reachable ls →
      reachable (HandleMessage sender msg ls).1.

(** ** Channels, connections and the hub *)

Module Chan.
(** A buffered channel of capacity [sendChannelSize]. *)
Record t := mk {
  buf : list WSMessage.t;
  closed : bool;
}.
(** [make(chan []byte, sendChannelSize)] *)
Definition make : t := mk [] false.
End Chan.

(** [select { case ch <- msg: default: }]. [None] is the run-time panic of
    a send on a closed channel. *)
Definition trySend (msg : WSMessage.t) (c : Chan.t) : option Chan.t :=
  if Chan.closed c then None
  else if (length (Chan.buf c) <? sendChannelSize)%nat
       then Some (Chan.mk (Chan.buf c ++ [msg]) false)
       else Some c.

(** [close(ch)]. [None] is the panic of closing a closed channel. *)
Definition closeChan (c : Chan.t) : option Chan.t :=
  if Chan.closed c then None else Some (Chan.mk (Chan.buf c) true).

(** Sessions live in a heap; the hub maps a session ID to the address of
    its session ([map[string]*LiveSession]). *)
Record Hub := mkHub {
  sessions : gmap string nat;
}.

Definition NewHub : Hub := mkHub ∅.

Definition GetSession (h : Hub) (sessionID : string) : option nat :=
  sessions h !! sessionID.

Definition removeSession (sessionID : string) (h : Hub) : Hub :=
  mkHub (delete sessionID (sessions h)).

Record World := mkWorld {
  hub : Hub;
  heap : gmap nat LiveSession;
  sendChs : gmap string Chan.t;    (* the channel of each participant ID *)
  closedConns : gset string;      (* the connections that were closed *)
}.

Definition perform (eff : Effect) (w : World) : option World :=
  match eff with
  | TrySend to msg =>
      c ← sendChs w !! to;
      c' ← trySend msg c;
      Some (mkWorld (hub w) (heap w) (<[to := c']> (sendChs w)) (closedConns w))
  | CloseCh pid =>
      c ← sendChs w !! pid;
      c' ← closeChan c;
      Some (mkWorld (hub w) (heap w) (<[pid := c']> (sendChs w)) (closedConns w))
  | ConnClose pid =>
      Some (mkWorld (hub w) (heap w) (sendChs w) ({[pid]} ∪ closedConns w))
  | HubRemove sid =>
      Some (mkWorld (removeSession sid (hub w)) (heap w) (sendChs w)
              (closedConns w))
  end.

Fixpoint performAll (effs : list Effect) (w : World) : option World :=
  match effs with
  | [] => Some w
  | eff :: effs => perform eff w ≫= performAll effs
  end.

Section Hub.
Context `{E : !External}.

Definition CreateSession (session : ListenSession.t) (w : World)
  : World * nat :=
  match sessions (hub w) !! ListenSession.ID session with
  | Some a => (w, a)
  | None =>
      let a := fresh (dom (heap w)) in
      (mkWorld (mkHub (<[ListenSession.ID session := a]> (sessions (hub w))))
         (<[a := newLiveSession session]> (heap w))
         (sendChs w) (closedConns w), a)
  end.

(** [ls.HandleMessage(sender, msg)] for the session [ls] at address [a]. *)
Definition HandleMessageAt (a : nat) (sender : Participant.t)
    (msg : WSMessage.t) (w : World) : option World :=
  ls ← heap w !! a;
  let '(ls', effs) := HandleMessage sender msg ls in
  performAll effs
    (mkWorld (hub w) (<[a := ls']> (heap w)) (sendChs w) (closedConns w)).

End Hub.

(** ** Definitions that follow the words of the specification *)

(** [clamp(p, 0, d)] *)
Definition clamp (p lo hi : float) : float :=
  if PrimFloat.ltb p lo then lo
  else if PrimFloat.ltb hi p then hi
  else p.

(** The duration of the current track (0 when there is none). *)
Definition currentDuration (ls : LiveSession) : float :=
  match currentTrack ls with
  | Some t => TrackInfo.Duration t
  | None => 0%float
  end.

(** ** Concrete environments and sessions *)

(** An environment for one command: the decoders return what
    [json.Unmarshal] returns for the payload of that command, and [range]
    visits a map in the order of [map_to_list]. [mf] is the media file
    that the payload of a queue_add names; with [None] there is no such
    payload, and the decoder fails. A payload that names a media file which
    the library does not hold is [library None] below. *)
Definition fixedExternal (seek : option float) (sync : option (float * Z))
    (pid : option string) (qpos : option Z) (reorder : option (Z * Z))
    (mf : option MediaFile.t) : External :=
  {| rangeOrder := λ m, (map_to_list m).*2;
     unmarshalSeek := λ _, seek;
     unmarshalSync := λ _, sync;
     unmarshalParticipantID := λ _, pid;
     unmarshalMediaFileID := λ _, MediaFile.ID <$> mf;
     unmarshalQueuePosition := λ _, qpos;
     unmarshalReorder := λ _, reorder;
     mediaFileGet := λ _, mf;
     createExpiringPublicToken := λ _, "token" |}.

Definition plainExternal : External :=
  fixedExternal None None None None None None.

(** A command without payload. *)
Definition command (action : string) : WSMessage.t :=
  WSMessage.mk "command" action PNone.

(** The JSON text of an object whose values are numbers. *)
Definition quote : string := String (Ascii.ascii_of_nat 34) EmptyString.

Fixpoint jsonFields (fields : list (string * string)) : string :=
  match fields with
  | [] => ""
  | [(k, v)] => quote +:+ k +:+ quote +:+ ":" +:+ v
  | (k, v) :: fields =>
      quote +:+ k +:+ quote +:+ ":" +:+ v +:+ "," +:+ jsonFields fields
  end.

(** A command with a JSON object as payload. *)
Definition commandWith (action : string) (fields : list (string * string))
  : WSMessage.t :=
  WSMessage.mk "command" action (PRaw ("{" +:+ jsonFields fields +:+ "}")).

Definition seekTo500 : WSMessage.t := commandWith "seek" [("position", "500")].
Definition remove0 : WSMessage.t :=
  commandWith "queue_remove" [("queuePosition", "0")].
Definition remove1 : WSMessage.t :=
  commandWith "queue_remove" [("queuePosition", "1")].
Definition reorder0to2 : WSMessage.t :=
  commandWith "queue_reorder" [("from", "0"); ("to", "2")].
Definition reorder1to1 : WSMessage.t :=
  commandWith "queue_reorder" [("from", "1"); ("to", "1")].

Definition song (id : string) (duration : float) : MediaFile.t :=
  MediaFile.mk id id "artist" "album" duration.

Definition id_A : string := "aaaaaaaa-0000-4000-8000-000000000001".
Definition id_B : string := "bbbbbbbb-0000-4000-8000-000000000002".
Definition id_C : string := "cccccccc-0000-4000-8000-000000000003".

(** Three tracks; A (host) joined at 10, B at 20, C at 30; A holds the
    remote. *)
Definition demo0 : LiveSession :=
  @newLiveSession plainExternal
    (ListenSession.mk "s1" "u1" "" 0
       [song "t0" 180%float; song "t1" 200%float; song "t2" 240%float]).

Definition demo : LiveSession :=
  (Join id_C 30 "C" false
     (Join id_B 20 "B" false
        (Join id_A 10 "A" true demo0).1).1).1.

Definition part_A : Participant.t := Participant.mk id_A "A" true 10.
Definition part_B : Participant.t := Participant.mk id_B "B" false 20.
Definition part_C : Participant.t := Participant.mk id_C "C" false 30.

(** A session created from a descriptor without tracks, joined by A. *)
Definition emptyDemo : LiveSession :=
  (Join id_A 10 "A" true
     (@newLiveSession plainExternal (ListenSession.mk "s0" "u1" "" 0 []))).1.

(** The commands that only the remote holder may issue and that answer a
    non-holder with an error. *)
Definition holderOnlyActions : list string :=
  ["play"; "pause"; "seek"; "skip_next"; "skip_prev"; "pass_remote";
   "accept_remote_request"; "queue_add"; "queue_remove"; "queue_reorder";
   "end_session"].

(** The environment in which [seekTo500] is decoded. *)
Definition seek500 : External :=
  fixedExternal (Some 500%float) None None None None None.

(** The environments in which [remove0] and [remove1] are decoded. *)
Definition removeAt0 : External :=
  fixedExternal None None None (Some 0%Z) None None.
Definition removeAt1 : External :=
  fixedExternal None None None (Some 1%Z) None None.

(** The environments in which [reorder0to2] and [reorder1to1] are
    decoded. *)
Definition move0to2 : External :=
  fixedExternal None None None None (Some (0, 2)%Z) None.
Definition move1to1 : External :=
  fixedExternal None None None None (Some (1, 1)%Z) None.

(** [demo] after the holder skipped to the second track. *)
Definition demoNext : LiveSession :=
  (@HandleMessage plainExternal part_A (command "skip_next") demo).1.

(** The hub with the session [demo] at address 0 and an empty channel for
    each of its participants. *)
Definition demoWorld : World :=
  mkWorld (mkHub {[ "s1" := 0 ]}) {[ 0 := demo ]}
    (<[id_A := Chan.make]> (<[id_B := Chan.make]> {[ id_C := Chan.make ]})) ∅.

(** [n] play commands from B, who does not hold the remote, while B's
    write loop does not drain B's channel. *)
Fixpoint deniedPlays (n : nat) (w : World) : option World :=
  match n with
  | 0 => Some w
  | S n => @HandleMessageAt plainExternal 0 part_B (command "play") w
           ≫= deniedPlays n
  end.

(** ** Invariants of a session *)

(** The participants are stored under their own IDs, none of which is
    empty, and the remote is held by one of them as soon as there is
    one. *)
Definition HolderInv (ls : LiveSession) : Prop :=
  (∀ k p, participants ls !! k = Some p → Participant.ID p = k)
  ∧ participants ls !! "" = None
  ∧ (participants ls = ∅ → remoteHolder ls = "")
  ∧ (participants ls ≠ ∅ → is_Some (participants ls !! remoteHolder ls)).

(** The queue holds valid indices into [tracks], each at most once. *)
Definition QueueInv (ls : LiveSession) : Prop :=
  Forall (λ idx, idx < length (tracks ls)) (queue ls) ∧ NoDup (queue ls).

(** [currentIndex] is a position of the queue, or 0 when the queue is
    empty. *)
Definition IndexInv (ls : LiveSession) : Prop :=
  (length (queue ls) = 0 ∧ currentIndex ls = 0%Z)
  ∨ (0 ≤ currentIndex ls < Z.of_nat (length (queue ls)))%Z.

(** ** The rest of the hub: the welcome burst, the read loop and the
    WebSocket endpoint *)

Section Connection.
Context `{E : !External}.

(** [SendWelcome]: four sends to the new participant, in this order. *)
Definition SendWelcome (p : Participant.t) (ls : LiveSession) : list Effect :=
let state := stateOf ls "welcome" in
let infos :=
  map (λ pp, ParticipantInfo.mk (Participant.ID pp) (Participant.Name pp)
               (Participant.IsHost pp)) (rangeOrder (participants ls)) in
let holderID := remoteHolder ls in
let holderName := match participants ls !! holderID with
                  | Some holder => Participant.Name holder
                  | None => ""
                  end in
[TrySend (Participant.ID p)
   (WSMessage.mk "welcome" "" (PWelcome (Participant.ID p)));
 TrySend (Participant.ID p) (WSMessage.mk "state" "" (PState state));
 TrySend (Participant.ID p)
   (WSMessage.mk "participants" "" (PParticipants infos));
 TrySend (Participant.ID p)
   (WSMessage.mk "remote" ""
      (PRemote (RemotePayload.mk holderID holderName)))].

(** The loop of [ReadPump] over the frames that [ReadMessage] returned
    before its first error: a frame that does not decode to a [WSMessage]
    is skipped, every other one is dispatched. [decode] is [json.Unmarshal]
    into a [WSMessage]. *)
Fixpoint readLoop (decode : string → option WSMessage.t) (p : Participant.t)
    (frames : list string) (ls : LiveSession) : LiveSession * list Effect :=
match frames with
| [] => (ls, [])
| frame :: frames =>
    match decode frame with
    | None => readLoop decode p frames ls
    | Some msg =>
        let '(ls, effs) := HandleMessage p msg ls in
        let '(ls', effs') := readLoop decode p frames ls in
        (ls', effs ++ effs')
    end
end.

(** [ReadPump]: the loop, then the deferred [Leave] and [conn.Close]. *)
Definition ReadPump (decode : string → option WSMessage.t) (p : Participant.t)
    (frames : list string) (ls : LiveSession) : LiveSession * list Effect :=
let '(ls, effs) := readLoop decode p frames ls in
let '(ls', effs') := Leave (Participant.ID p) ls in
(ls', effs ++ effs' ++ [ConnClose (Participant.ID p)]).

(** What [handleWebSocket] answers. *)
Inductive WsOutcome :=
  | WsNotFound                               (* 404, session not found *)
  | WsUpgradeFailed
  | WsConnected (p : Participant.t) (a : nat).

(** [handleWebSocket] up to the start of the two pumps. [load] is
    [rt.listenTogether.Load], [upgraded] tells whether the upgrade of the
    connection succeeded, [uuid] and [now] are what [Join] draws. The
    channel and the connection of the new participant are created open.
    [None] is a panic while sending. *)
Definition handleWebSocket (load : string → option ListenSession.t)
    (upgraded : bool) (uuid : string) (now : Z) (id name host : string)
    (w : World) : option (World * WsOutcome) :=
let name := if String.eqb name "" then "Guest" else name in
let isHost := String.eqb host "true" in
let found :=
  match GetSession (hub w) id with
  | Some a => Some (w, a)
  | None =>
      match load id with
      | None => None
      | Some session => Some (CreateSession session w)
      end
  end in
match found with
| None => Some (w, WsNotFound)
| Some (w, a) =>
    if negb upgraded then Some (w, WsUpgradeFailed)
    else
      ls ← heap w !! a;
      let '(ls, p) := Join uuid now name isHost ls in
      let w := mkWorld (hub w) (<[a := ls]> (heap w))
                 (<[uuid := Chan.make]> (sendChs w))
                 (closedConns w ∖ {[uuid]}) in
      w ← performAll (SendWelcome p ls ++ broadcastParticipants ls
                      ++ broadcastRemote ls) w;
      Some (w, WsConnected p a)
end.

End Connection.

(** ** The hub from some moment on

    [ls.Leave(participantID)] for the session at address [a], the callback
    of its grace timer, and the worlds that the hub goes through from a
    given world on as long as [CreateSession] is not called with the
    session ID [id]: commands, departures and grace timers of any session,
    [CreateSession] with another ID, and connections for which the store
    does not return a session of that ID. *)

Section After.
Context `{E : !External}.

Definition LeaveAt (a : nat) (participantID : string) (w : World)
  : option World :=
  ls ← heap w !! a;
  let '(ls', effs) := Leave participantID ls in
  performAll effs
    (mkWorld (hub w) (<[a := ls']> (heap w)) (sendChs w) (closedConns w)).

End After.

Definition graceExpiredAt (a : nat) (w : World) : option World :=
  ls ← heap w !! a;
  performAll (graceExpired ls) w.

Inductive subsequent (id : string) : World → World → Prop :=
  | sub_now w : subsequent id w w
  | sub_HandleMessage (E : External) a sender msg w w1 w2 :
      subsequent id w w1 →
      HandleMessageAt a sender msg w1 = Some w2 →
      subsequent id w w2
  | sub_Leave (E : External) a participantID w w1 w2 :
      subsequent id w w1 →
      LeaveAt a participantID w1 = Some w2 →
      subsequent id w w2
  | sub_graceExpired a w w1 w2 :
      subsequent id w w1 →
      graceExpiredAt a w1 = Some w2 →
      subsequent id w w2
  | sub_CreateSession (E : External) session w w1 :
      subsequent id w w1 →
      ListenSession.ID session ≠ id →
      subsequent id w (CreateSession session w1).1
  | sub_handleWebSocket (E : External) load upgraded uuid now id' name host
        w w1 w2 out :
      subsequent id w w1 →
      (∀ session, load id' = Some session → ListenSession.ID session ≠ id) →
      handleWebSocket load upgraded uuid now id' name host w1
      = Some (w2, out) →
      subsequent id w w2.

(** ** The client's reconnection ([ListenTogetherWebSocket.js])

    Delays are milliseconds. [Math.pow(2, n)] is exact as long as it is
    finite and is [Infinity] beyond, where [Math.min] returns the cap: the
    delay is the same number when computed over [Z]. *)

Module Client.

Definition MAX_RECONNECT_DELAY : Z := 30000.
Definition INITIAL_RECONNECT_DELAY : Z := 1000.

Record t := mk {
  ws : bool;                      (* [this.ws] is not null *)
  reconnectAttempts : nat;
  reconnectTimer : option Z;      (* the delay of the timer last set *)
  connected : bool;
  intentionalClose : bool;
}.

(** [constructor] *)
Definition new : t := mk false 0 None false false.

(** The delay that [_scheduleReconnect] computes. *)
Definition reconnectDelay (attempts : nat) : Z :=
  Z.min (INITIAL_RECONNECT_DELAY * 2 ^ Z.of_nat attempts) MAX_RECONNECT_DELAY.

(** [_scheduleReconnect] *)
Definition scheduleReconnect (c : t) : t :=
  if intentionalClose c then c
  else mk (ws c) (S (reconnectAttempts c))
         (Some (reconnectDelay (reconnectAttempts c)))
         (connected c) (intentionalClose c).

(** [connect]; [throws] tells whether [new WebSocket(url)] threw. *)
Definition connect (throws : bool) (c : t) : t :=
  let c := mk (ws c) (reconnectAttempts c) (reconnectTimer c) (connected c)
             false in
  if throws then scheduleReconnect c
  else mk true (reconnectAttempts c) (reconnectTimer c) (connected c)
         (intentionalClose c).

(** [ws.onopen] *)
Definition onopen (c : t) : t :=
  mk (ws c) 0 (reconnectTimer c) true (intentionalClose c).

(** [ws.onclose] *)
Definition onclose (c : t) : t :=
  let c := mk (ws c) (reconnectAttempts c) (reconnectTimer c) false
             (intentionalClose c) in
  if negb (intentionalClose c) then scheduleReconnect c else c.

(** [disconnect] *)
Definition disconnect (c : t) : t :=
  mk false (reconnectAttempts c) None false true.

End Client.

(** ** More concrete environments *)

(** The actions that [HandleMessage] knows. *)
Definition knownActions : list string :=
  ["play"; "pause"; "seek"; "skip_next"; "skip_prev"; "sync"; "pass_remote";
   "request_remote"; "accept_remote_request"; "queue_add"; "queue_remove";
   "queue_reorder"; "end_session"].

Definition passTo (target : string) : External :=
  fixedExternal None None (Some target) None None None.

Definition passToB : WSMessage.t :=
  commandWith "pass_remote" [("participantId", quote +:+ id_B +:+ quote)].
Definition acceptB : WSMessage.t :=
  commandWith "accept_remote_request"
    [("participantId", quote +:+ id_B +:+ quote)].

Definition syncTo (pos : float) (trackIndex : Z) : External :=
  fixedExternal None (Some (pos, trackIndex)) None None None None.

Definition sync42at7 : WSMessage.t :=
  commandWith "sync" [("position", "42"); ("trackIndex", "7")].

(** An environment for a queue_add whose payload decodes: it names the
    media file [mf] that the library returns, or, with [None], a media file
    that the library does not hold. *)
Definition library (mf : option MediaFile.t) : External :=
  {| rangeOrder := λ m, (map_to_list m).*2;
     unmarshalSeek := λ _, None;
     unmarshalSync := λ _, None;
     unmarshalParticipantID := λ _, None;
     unmarshalMediaFileID := λ _, Some (from_option MediaFile.ID "t9" mf);
     unmarshalQueuePosition := λ _, None;
     unmarshalReorder := λ _, None;
     mediaFileGet := λ _, mf;
     createExpiringPublicToken := λ _, "token" |}.

Definition addT3 : WSMessage.t :=
  commandWith "queue_add" [("mediaFileId", quote +:+ "t3" +:+ quote)].

(** A session with B alone. *)
Definition soloDemo : LiveSession := (Join id_B 20 "B" false demo0).1.

(** The descriptor of [demo0], and one with the same ID and no tracks. *)
Definition descriptor1 : ListenSession.t :=
  ListenSession.mk "s1" "u1" "" 0
    [song "t0" 180%float; song "t1" 200%float; song "t2" 240%float].
Definition descriptor1' : ListenSession.t :=
  ListenSession.mk "s1" "u1" "" 0 [].

Definition emptyWorld : World := mkWorld NewHub ∅ ∅ ∅.

(** A fourth connection ID, of a client that is not in [demo]. *)
Definition id_D : string := "dddddddd-0000-4000-8000-000000000004".

(** A store that holds one session: [Load] returns it for its ID. *)
Definition storeWith (session : ListenSession.t) (id : string)
  : option ListenSession.t :=
  if String.eqb id (ListenSession.ID session) then Some session else None.

(** * Properties *)

(** ** Slices *)

Lemma removeAt_delete {A} (i : nat) (q : list A) : removeAt i q = delete i q.
Proof. unfold removeAt. by rewrite delete_take_drop. Qed.

Lemma removeAt_length {A} (i : nat) (q : list A) :
  i < length q → length (removeAt i q) = length q - 1.
Proof.
  intros Hi. unfold removeAt.
  rewrite length_app, length_take, length_drop. lia.
Qed.

Lemma removeAt_lookup_lt {A} (i j : nat) (q : list A) :
  j < i → removeAt i q !! j = q !! j.
Proof. intros. rewrite removeAt_delete. by apply list_lookup_delete_lt. Qed.

Lemma removeAt_lookup_ge {A} (i j : nat) (q : list A) :
  i ≤ j → removeAt i q !! j = q !! S j.
Proof. intros. rewrite removeAt_delete. by apply list_lookup_delete_ge. Qed.

Lemma removeAt_perm {A} `{Inhabited A} (i : nat) (q : list A) :
  i < length q → q ≡ₚ (q !!! i) :: removeAt i q.
Proof.
  intros Hi. rewrite removeAt_delete.
  apply delete_Permutation. by apply list_lookup_lookup_total_lt.
Qed.

Lemma insertAt_length {A} (i : nat) (x : A) (q : list A) :
  length (insertAt i x q) = S (length q).
Proof.
  unfold insertAt. rewrite !length_app, length_take, length_drop. simpl. lia.
Qed.

Lemma insertAt_perm {A} (i : nat) (x : A) (q : list A) :
  insertAt i x q ≡ₚ x :: q.
Proof.
  unfold insertAt. rewrite <- (take_drop i q) at 3.
  by rewrite Permutation_middle.
Qed.

Lemma insertAt_lookup_lt {A} (i j : nat) (x : A) (q : list A) :
  i ≤ length q → j < i → insertAt i x q !! j = q !! j.
Proof.
  intros Hi Hj. unfold insertAt.
  rewrite lookup_app_l by (rewrite length_take; lia).
  by rewrite lookup_take_lt.
Qed.

Lemma insertAt_lookup_eq {A} (i : nat) (x : A) (q : list A) :
  i ≤ length q → insertAt i x q !! i = Some x.
Proof.
  intros Hi. unfold insertAt.
  rewrite lookup_app_r by (rewrite length_take; lia).
  rewrite length_take. by replace (i - i `min` length q) with 0 by lia.
Qed.

Lemma insertAt_lookup_gt {A} (i j : nat) (x : A) (q : list A) :
  i ≤ length q → i ≤ j → insertAt i x q !! S j = q !! j.
Proof.
  intros Hi Hj. unfold insertAt.
  rewrite lookup_app_r by (rewrite length_take; lia).
  rewrite length_take.
  replace (S j - i `min` length q) with (S (j - i)) by lia.
  simpl. rewrite lookup_drop. f_equal. lia.
Qed.

(** Moving an element onto its own position changes nothing. *)
Lemma insertAt_removeAt_same {A} `{Inhabited A} (i : nat) (q : list A) :
  i < length q → insertAt i (q !!! i) (removeAt i q) = q.
Proof.
  intros Hi. unfold insertAt, removeAt.
  rewrite take_app_le by (rewrite length_take; lia).
  rewrite take_take, Nat.min_id.
  rewrite drop_app_ge by (rewrite length_take; lia).
  rewrite length_take, drop_drop.
  replace (S i + (i - i `min` length q)) with (S i) by lia.
  simpl. apply take_drop_middle. by apply list_lookup_lookup_total_lt.
Qed.

(** ** Dispatch *)

Section Dispatch.
Context `{E : !External}.
Implicit Types (sender : Participant.t) (msg : WSMessage.t) (ls : LiveSession).

Lemma HandleMessage_play sender msg ls :
  WSMessage.Action msg = "play" →
  HandleMessage sender msg ls = handlePlay sender ls.
Proof. intros Ha. unfold HandleMessage. by rewrite Ha. Qed.

Lemma HandleMessage_seek sender msg ls :
  WSMessage.Action msg = "seek" →
  HandleMessage sender msg ls = handleSeek sender (WSMessage.Payload msg) ls.
Proof. intros Ha. unfold HandleMessage. by rewrite Ha. Qed.

Lemma HandleMessage_queue_remove sender msg ls :
  WSMessage.Action msg = "queue_remove" →
  HandleMessage sender msg ls
  = handleQueueRemove sender (WSMessage.Payload msg) ls.
Proof. intros Ha. unfold HandleMessage. by rewrite Ha. Qed.

Lemma HandleMessage_queue_reorder sender msg ls :
  WSMessage.Action msg = "queue_reorder" →
  HandleMessage sender msg ls
  = handleQueueReorder sender (WSMessage.Payload msg) ls.
Proof. intros Ha. unfold HandleMessage. by rewrite Ha. Qed.

Lemma HandleMessage_end_session sender msg ls :
  WSMessage.Action msg = "end_session" →
  HandleMessage sender msg ls = handleEndSession sender ls.
Proof. intros Ha. unfold HandleMessage. by rewrite Ha. Qed.

(** A property of the result of every handler is a property of the
    result of [HandleMessage]. *)
Lemma HandleMessage_cases (P : LiveSession * list Effect → Prop)
    sender msg ls :
  P (handlePlay sender ls) →
  P (handlePause sender ls) →
  P (handleSeek sender (WSMessage.Payload msg) ls) →
  P (handleSkipNext sender ls) →
  P (handleSkipPrev sender ls) →
  P (handleSync sender (WSMessage.Payload msg) ls) →
  P (handlePassRemote sender (WSMessage.Payload msg) ls) →
  P (handleRequestRemote sender ls) →
  P (handleAcceptRemoteRequest sender (WSMessage.Payload msg) ls) →
  P (handleQueueAdd sender (WSMessage.Payload msg) ls) →
  P (handleQueueRemove sender (WSMessage.Payload msg) ls) →
  P (handleQueueReorder sender (WSMessage.Payload msg) ls) →
  P (handleEndSession sender ls) →
  (∀ errMsg, P (ls, sendError sender errMsg)) →
  P (HandleMessage sender msg ls).
Proof.
  intros. unfold HandleMessage.
  repeat (destruct (String.eqb _ _); [assumption|]). auto.
Qed.

End Dispatch.

(** ** Commands from a participant who does not hold the remote *)

(** C3. A holder-only command (play, pause, seek, skip_next, skip_prev,
    pass_remote, accept_remote_request, queue_add, queue_remove,
    queue_reorder, end_session) from a participant who is not the remote
    holder leaves the session exactly as it was and performs one effect
    only: one send of an error message on the sender's channel (the hub's
    non-blocking send); nothing is sent to anyone else. A sync from a
    non-holder changes nothing and sends nothing. *)
Theorem non_holder_command_rejected `{E : !External}
    (sender : Participant.t) (msg : WSMessage.t) (ls : LiveSession) :
  isRemoteHolder ls sender = false →
  (WSMessage.Action msg ∈ holderOnlyActions →
     ∃ errMsg, HandleMessage sender msg ls
               = (ls, [TrySend (Participant.ID sender) (errorMsg errMsg)]))
  ∧ (WSMessage.Action msg = "sync" → HandleMessage sender msg ls = (ls, [])).
Proof.
  intros Hnh. destruct msg as [ty action payload]. simpl. split.
  - intros Hin. unfold holderOnlyActions in Hin.
    repeat (apply elem_of_cons in Hin as [->|Hin]);
      [..|by apply elem_of_nil in Hin];
      unfold HandleMessage; simpl;
      unfold handlePlay, handlePause, handleSeek, handleSkipNext,
        handleSkipPrev, handlePassRemote, handleAcceptRemoteRequest,
        handleQueueAdd, handleQueueRemove, handleQueueReorder,
        handleEndSession;
      rewrite Hnh; simpl; unfold sendError; eauto.
  - intros ->. unfold HandleMessage. simpl. unfold handleSync.
    by rewrite Hnh.
Qed.

Lemma non_holder_command_rejected_witness :
  @isRemoteHolder demo part_B = false
  ∧ "pause" ∈ holderOnlyActions
  ∧ (∃ errMsg, @HandleMessage plainExternal part_B (command "pause") demo
               = (demo, [TrySend id_B (errorMsg errMsg)]))
  ∧ @HandleMessage plainExternal part_B (command "sync") demo = (demo, []).
Proof.
  assert (Hnh : isRemoteHolder demo part_B = false) by reflexivity.
  assert (Hin : "pause" ∈ holderOnlyActions)
    by (unfold holderOnlyActions; set_solver).
  destruct (@non_holder_command_rejected plainExternal part_B
              (command "pause") demo Hnh) as [Herr _].
  destruct (@non_holder_command_rejected plainExternal part_B
              (command "sync") demo Hnh) as [_ Hsync].
  split; [exact Hnh|]. split; [exact Hin|]. split.
  - exact (Herr Hin).
  - exact (Hsync eq_refl).
Defined.

(** ** Seek *)

(** C1, as the code has it. A seek from the remote holder whose payload
    decodes to position [p] stores [p] itself as the session's position,
    whatever the duration of the current track: there is no clamping. The
    rest of the session is unchanged and the new state is sent to every
    participant. *)
Theorem seek_stores_position `{E : !External}
    (sender : Participant.t) (msg : WSMessage.t) (p : float)
    (ls : LiveSession) :
  WSMessage.Action msg = "seek" →
  isRemoteHolder ls sender = true →
  unmarshalSeek (WSMessage.Payload msg) = Some p →
  HandleMessage sender msg ls
  = (set_position p ls, broadcastState (set_position p ls) "seek")
  ∧ position (HandleMessage sender msg ls).1 = p.
Proof.
  intros Ha Hh Hp. rewrite HandleMessage_seek by done.
  unfold handleSeek. by rewrite Hh, Hp.
Qed.

Lemma seek_stores_position_witness :
  WSMessage.Action seekTo500 = "seek"
  ∧ isRemoteHolder demo part_A = true
  ∧ @unmarshalSeek seek500 (WSMessage.Payload seekTo500)
    = Some 500%float
  ∧ position (@HandleMessage seek500 part_A seekTo500 demo).1
    = 500%float.
Proof.
  do 3 (split; [reflexivity|]).
  apply (@seek_stores_position seek500 part_A seekTo500 500%float demo);
    reflexivity.
Defined.

(** C1 fails as stated: the current track of [demo] lasts 180 s, the
    holder seeks to 500 s, and the position becomes 500, not
    [clamp 500 0 180 = 180]. *)
Lemma seek_not_clamped :
  isRemoteHolder demo part_A = true
  ∧ currentDuration demo = 180%float
  ∧ clamp 500%float 0%float (currentDuration demo) = 180%float
  ∧ position (@HandleMessage seek500 part_A seekTo500 demo).1
    ≠ clamp 500%float 0%float (currentDuration demo).
Proof.
  repeat split; try reflexivity.
  intros Heq.
  apply (f_equal (λ x, PrimFloat.eqb x 180%float)) in Heq.
  vm_compute in Heq. discriminate.
Qed.

(** ** Queue positions as Go integers *)

Lemma indexZ_nat {A} (l : list A) (i : nat) : indexZ l (Z.of_nat i) = l !! i.
Proof.
  unfold indexZ. destruct (Z.ltb_spec (Z.of_nat i) 0); [lia|].
  by rewrite Nat2Z.id.
Qed.

Lemma indexZ_neg {A} (l : list A) (i : Z) : (i < 0)%Z → indexZ l i = None.
Proof. intros. unfold indexZ. destruct (Z.ltb_spec i 0); [done|lia]. Qed.

Lemma indexZ_removeAt_before {A} (q : list A) (p c : Z) :
  (0 ≤ p < c)%Z → indexZ (removeAt (Z.to_nat p) q) (c - 1) = indexZ q c.
Proof.
  intros Hp.
  replace c with (Z.of_nat (S (Z.to_nat (c - 1)))) at 2 by lia.
  replace (c - 1)%Z with (Z.of_nat (Z.to_nat (c - 1))) at 1 by lia.
  rewrite !indexZ_nat. apply removeAt_lookup_ge. lia.
Qed.

Lemma indexZ_removeAt_after {A} (q : list A) (p c : Z) :
  (0 ≤ p)%Z → (c < p)%Z → indexZ (removeAt (Z.to_nat p) q) c = indexZ q c.
Proof.
  intros Hp Hc. destruct (Z.ltb_spec c 0) as [Hneg|Hpos].
  - by rewrite !indexZ_neg.
  - replace c with (Z.of_nat (Z.to_nat c)) by lia.
    rewrite !indexZ_nat. apply removeAt_lookup_lt. lia.
Qed.

(** Where the element at position [cur] is after the element at [from]
    was moved to [to]: the index computed by [handleQueueReorder]. *)
Lemma indexZ_reorder {A} `{Inhabited A} (q : list A) (from to cur : Z) :
  (0 ≤ from < Z.of_nat (length q))%Z →
  (0 ≤ to < Z.of_nat (length q))%Z →
  indexZ (insertAt (Z.to_nat to) (q !!! Z.to_nat from)
            (removeAt (Z.to_nat from) q))
    (if (from =? cur)%Z then to
     else if (from <? cur)%Z && (cur <=? to)%Z then cur - 1
     else if (cur <? from)%Z && (to <=? cur)%Z then cur + 1
     else cur)%Z
  = indexZ q cur.
Proof.
  intros Hf Ht.
  assert (Hlen : length (removeAt (Z.to_nat from) q) = length q - 1)
    by (apply removeAt_length; lia).
  destruct (Z.ltb_spec cur 0) as [Hneg|Hpos].
  { destruct (Z.eqb_spec from cur); [lia|].
    destruct (Z.ltb_spec from cur); [lia|].
    destruct (Z.ltb_spec cur from); [|lia].
    destruct (Z.leb_spec to cur); [lia|]. simpl.
    by rewrite !indexZ_neg. }
  assert (∃ f, from = Z.of_nat f) as [f ->] by (exists (Z.to_nat from); lia).
  assert (∃ t, to = Z.of_nat t) as [t ->] by (exists (Z.to_nat to); lia).
  assert (∃ c, cur = Z.of_nat c) as [c ->] by (exists (Z.to_nat cur); lia).
  rewrite !Nat2Z.id in *.
  assert (f < length q ∧ t < length q) as [Hfl Htl] by lia.
  clear Hf Ht Hpos.
  destruct (Z.eqb_spec (Z.of_nat f) (Z.of_nat c)) as [Heq|Hne].
  { assert (f = c) as -> by lia. rewrite !indexZ_nat.
    rewrite insertAt_lookup_eq by lia.
    symmetry. by apply list_lookup_lookup_total_lt. }
  destruct (Z.ltb_spec (Z.of_nat f) (Z.of_nat c)) as [Hfc|Hfc]; simpl.
  - destruct (Z.leb_spec (Z.of_nat c) (Z.of_nat t)) as [Hct|Hct]; simpl.
    + replace (Z.of_nat c - 1)%Z with (Z.of_nat (c - 1)) by lia.
      rewrite !indexZ_nat.
      rewrite insertAt_lookup_lt by lia.
      rewrite removeAt_lookup_ge by lia. f_equal. lia.
    + destruct (Z.ltb_spec (Z.of_nat c) (Z.of_nat f)); [lia|]. simpl.
      rewrite !indexZ_nat.
      replace c with (S (c - 1)) at 1 by lia.
      rewrite insertAt_lookup_gt by lia.
      rewrite removeAt_lookup_ge by lia. f_equal. lia.
  - destruct (Z.ltb_spec (Z.of_nat c) (Z.of_nat f)); [|lia]. simpl.
    destruct (Z.leb_spec (Z.of_nat t) (Z.of_nat c)) as [Htc|Htc].
    + replace (Z.of_nat c + 1)%Z with (Z.of_nat (S c)) by lia.
      rewrite !indexZ_nat.
      rewrite insertAt_lookup_gt by lia.
      by rewrite removeAt_lookup_lt by lia.
    + rewrite !indexZ_nat.
      rewrite insertAt_lookup_lt by lia.
      by rewrite removeAt_lookup_lt by lia.
Qed.

(** ** Removing from the queue *)

(** C5. A queue_remove from the remote holder at position [p]: when [p] is
    outside [0, len(queue)) or equals [currentIndex], the session is
    unchanged (queue, currentIndex, position and isPlaying included) and the
    only effect is an error sent to the sender; otherwise the element at [p]
    is spliced out of the queue, [currentIndex] drops by one when
    [p < currentIndex] and stays when [p > currentIndex], and in both cases
    the track resolved through [tracks[queue[currentIndex]]] is the one it
    was before. *)
Theorem queue_remove_behaviour `{E : !External}
    (sender : Participant.t) (msg : WSMessage.t) (p : Z) (ls : LiveSession) :
  WSMessage.Action msg = "queue_remove" →
  isRemoteHolder ls sender = true →
  unmarshalQueuePosition (WSMessage.Payload msg) = Some p →
  let cur := currentIndex ls in
  let n := Z.of_nat (length (queue ls)) in
  let out := HandleMessage sender msg ls in
  ((p < 0 ∨ n ≤ p ∨ p = cur)%Z →
     out.1 = ls
     ∧ ∃ errMsg, out.2 = [TrySend (Participant.ID sender) (errorMsg errMsg)])
  ∧ ((0 ≤ p < n)%Z → p ≠ cur →
     queue out.1
     = take (Z.to_nat p) (queue ls) ++ drop (S (Z.to_nat p)) (queue ls)
     ∧ ((p < cur)%Z → currentIndex out.1 = (cur - 1)%Z)
     ∧ ((cur < p)%Z → currentIndex out.1 = cur)
     ∧ currentTrack out.1 = currentTrack ls
     ∧ tracks out.1 = tracks ls
     ∧ position out.1 = position ls
     ∧ isPlaying out.1 = isPlaying ls
     ∧ out.2 = broadcastState out.1 "queue_remove").
Proof.
  intros Ha Hh Hp cur n out. subst out.
  rewrite HandleMessage_queue_remove by done.
  unfold handleQueueRemove. rewrite Hh, Hp. simpl. fold cur n.
  destruct (Z.ltb_spec p 0) as [Hneg|Hpos]; simpl.
  { split; [unfold sendError; eauto | lia]. }
  destruct (Z.leb_spec n p) as [Hbig|Hin]; simpl.
  { split; [unfold sendError; eauto | lia]. }
  destruct (Z.eqb_spec p cur) as [Heq|Hne]; simpl.
  { split; [unfold sendError; eauto | lia]. }
  split; [lia|]. intros _ _.
  destruct (Z.ltb_spec p cur) as [Hlt|Hge]; simpl.
  - repeat split; try done; try lia.
    unfold currentTrack. simpl. fold cur.
    by rewrite indexZ_removeAt_before by lia.
  - repeat split; try done; try lia.
    unfold currentTrack. simpl. fold cur.
    by rewrite indexZ_removeAt_after by lia.
Qed.

Lemma queue_remove_behaviour_witness :
  isRemoteHolder demoNext part_A = true
  ∧ currentIndex demoNext = 1%Z
  ∧ (let out := @HandleMessage removeAt1 part_A remove1
                  demoNext in
     out.1 = demoNext
     ∧ ∃ errMsg, out.2 = [TrySend id_A (errorMsg errMsg)])
  ∧ (let out := @HandleMessage removeAt0 part_A remove0
                  demoNext in
     queue out.1 = [1; 2]
     ∧ currentIndex out.1 = 0%Z
     ∧ currentTrack out.1 = currentTrack demoNext).
Proof.
  do 2 (split; [reflexivity|]). split.
  - apply (@queue_remove_behaviour removeAt1 part_A remove1
             1%Z demoNext eq_refl eq_refl eq_refl).
    right. right. reflexivity.
  - destruct (@queue_remove_behaviour removeAt0 part_A
                remove0 0%Z demoNext eq_refl eq_refl eq_refl)
      as [_ Hok].
    destruct Hok as (Hq & Hlt & _ & Htrack & _).
    + vm_compute. split; [discriminate|reflexivity].
    + vm_compute. discriminate.
    + split; [exact Hq|]. split; [|exact Htrack].
      apply Hlt. reflexivity.
Defined.

(** ** Reordering the queue *)

(** C6. A queue_reorder from the remote holder with in-range positions
    [from] and [to] moves [queue[from]] to position [to] (the other
    elements keep their order), and the new [currentIndex] is [to] when
    [from = currentIndex]; [currentIndex - 1] when [from < currentIndex] and
    [to ≥ currentIndex]; [currentIndex + 1] when [from > currentIndex] and
    [to ≤ currentIndex]; and unchanged otherwise. The track resolved
    through [tracks[queue[currentIndex]]] is the same before and after. *)
Theorem queue_reorder_behaviour `{E : !External}
    (sender : Participant.t) (msg : WSMessage.t) (from to : Z)
    (ls : LiveSession) :
  WSMessage.Action msg = "queue_reorder" →
  isRemoteHolder ls sender = true →
  unmarshalReorder (WSMessage.Payload msg) = Some (from, to) →
  (0 ≤ from < Z.of_nat (length (queue ls)))%Z →
  (0 ≤ to < Z.of_nat (length (queue ls)))%Z →
  let cur := currentIndex ls in
  let out := HandleMessage sender msg ls in
  queue out.1
  = insertAt (Z.to_nat to) (queue ls !!! Z.to_nat from)
      (removeAt (Z.to_nat from) (queue ls))
  ∧ queue out.1 !! Z.to_nat to = queue ls !! Z.to_nat from
  ∧ (from = cur → currentIndex out.1 = to)
  ∧ ((from < cur)%Z → (cur ≤ to)%Z → currentIndex out.1 = (cur - 1)%Z)
  ∧ ((cur < from)%Z → (to ≤ cur)%Z → currentIndex out.1 = (cur + 1)%Z)
  ∧ (from ≠ cur → ¬ (from < cur ∧ cur ≤ to)%Z → ¬ (cur < from ∧ to ≤ cur)%Z →
     currentIndex out.1 = cur)
  ∧ currentTrack out.1 = currentTrack ls
  ∧ tracks out.1 = tracks ls
  ∧ position out.1 = position ls
  ∧ isPlaying out.1 = isPlaying ls
  ∧ out.2 = broadcastState out.1 "queue_reorder".
Proof.
  intros Ha Hh Hp Hf Ht cur out. subst out.
  rewrite HandleMessage_queue_reorder by done.
  unfold handleQueueReorder. rewrite Hh, Hp. simpl.
  destruct (Z.ltb_spec from 0); [lia|].
  destruct (Z.leb_spec (Z.of_nat (length (queue ls))) from); [lia|].
  destruct (Z.ltb_spec to 0); [lia|].
  destruct (Z.leb_spec (Z.of_nat (length (queue ls))) to); [lia|].
  subst cur. simpl.
  assert (Hlen : length (removeAt (Z.to_nat from) (queue ls))
                 = length (queue ls) - 1) by (apply removeAt_length; lia).
  assert (Hto : insertAt (Z.to_nat to) (queue ls !!! Z.to_nat from)
                  (removeAt (Z.to_nat from) (queue ls)) !! Z.to_nat to
                = queue ls !! Z.to_nat from).
  { rewrite insertAt_lookup_eq by lia.
    symmetry. apply list_lookup_lookup_total_lt. lia. }
  generalize (indexZ_reorder (queue ls) from to (currentIndex ls) Hf Ht).
  unfold currentTrack.
  destruct (Z.eqb_spec from (currentIndex ls)) as [Heq|Hne]; simpl.
  { intros ->. repeat split; try done; lia. }
  destruct (Z.ltb_spec from (currentIndex ls)),
    (Z.leb_spec (currentIndex ls) to); simpl;
    try (intros ->; repeat split; try done; lia).
  all: destruct (Z.ltb_spec (currentIndex ls) from),
         (Z.leb_spec to (currentIndex ls)); simpl;
    intros ->; repeat split; try done; lia.
Qed.

Lemma queue_reorder_behaviour_witness :
  let out := @HandleMessage move0to2 part_A reorder0to2
               demoNext in
  isRemoteHolder demoNext part_A = true
  ∧ queue demoNext = [0; 1; 2] ∧ currentIndex demoNext = 1%Z
  ∧ queue out.1 = [1; 2; 0] ∧ currentIndex out.1 = 0%Z
  ∧ currentTrack out.1 = currentTrack demoNext.
Proof.
  intros out. do 3 (split; [reflexivity|]).
  destruct (@queue_reorder_behaviour move0to2 part_A
              reorder0to2 0%Z 2%Z demoNext
              eq_refl eq_refl eq_refl)
    as (Hq & _ & _ & Hdec & _ & _ & Htrack & _).
  - vm_compute. split; [discriminate|reflexivity].
  - vm_compute. split; [discriminate|reflexivity].
  - split; [exact Hq|]. split; [|exact Htrack].
    apply Hdec; vm_compute; [reflexivity|discriminate].
Defined.

(** C10. A queue_reorder from the remote holder with [from = to = i], [i]
    in range, leaves the whole session as it was (the queue, currentIndex,
    position and isPlaying in particular); the state is broadcast. *)
Theorem queue_reorder_same_position `{E : !External}
    (sender : Participant.t) (msg : WSMessage.t) (i : Z) (ls : LiveSession) :
  WSMessage.Action msg = "queue_reorder" →
  isRemoteHolder ls sender = true →
  unmarshalReorder (WSMessage.Payload msg) = Some (i, i) →
  (0 ≤ i < Z.of_nat (length (queue ls)))%Z →
  (HandleMessage sender msg ls).1 = ls
  ∧ queue (HandleMessage sender msg ls).1 = queue ls
  ∧ currentIndex (HandleMessage sender msg ls).1 = currentIndex ls
  ∧ position (HandleMessage sender msg ls).1 = position ls
  ∧ isPlaying (HandleMessage sender msg ls).1 = isPlaying ls.
Proof.
  intros Ha Hh Hp Hi.
  assert (Hsame : (HandleMessage sender msg ls).1 = ls);
    [|by rewrite Hsame].
  rewrite HandleMessage_queue_reorder by done.
  unfold handleQueueReorder. rewrite Hh, Hp. simpl.
  destruct (Z.ltb_spec i 0); [lia|].
  destruct (Z.leb_spec (Z.of_nat (length (queue ls))) i); [lia|].
  simpl. rewrite insertAt_removeAt_same by lia.
  destruct ls as [sid uid fmt br ts q cur pos playing holder ps timer].
  simpl in *. unfold set_currentIndex, set_queue. simpl.
  destruct (Z.eqb_spec i cur) as [->|Hne]; simpl; [done|].
  destruct (Z.ltb_spec i cur), (Z.leb_spec cur i); simpl; try done; try lia.
  all: destruct (Z.ltb_spec cur i), (Z.leb_spec i cur); simpl; try done; lia.
Qed.

Lemma queue_reorder_same_position_witness :
  isRemoteHolder demoNext part_A = true
  ∧ (@HandleMessage move1to1 part_A reorder1to1 demoNext).1
    = demoNext.
Proof.
  split; [reflexivity|].
  apply (@queue_reorder_same_position move1to1 part_A
           reorder1to1 1%Z demoNext eq_refl eq_refl eq_refl).
  vm_compute. split; [discriminate|reflexivity].
Defined.

(** ** The queue and the current index of a session that can arise *)

Ltac unfold_handlers :=
  unfold handlePlay, handlePause, handleSeek, handleSkipNext,
    handleSkipPrev, handleSync, handlePassRemote, handleRequestRemote,
    handleAcceptRemoteRequest, handleQueueAdd, handleQueueRemove,
    handleQueueReorder, handleEndSession.

(** Case analysis on the handler that ran and on the branch it took. *)
Ltac handler_cases :=
  apply HandleMessage_cases; intros; unfold_handlers;
  repeat case_match; simplify_eq/=.

Lemma Join_playback id now name isHost ls :
  let ls' := (Join id now name isHost ls).1 in
  tracks ls' = tracks ls ∧ queue ls' = queue ls
  ∧ currentIndex ls' = currentIndex ls.
Proof. unfold Join. simpl. by destruct (_ || _). Qed.

Lemma Leave_playback `{E : !External} pid ls :
  let ls' := (Leave pid ls).1 in
  tracks ls' = tracks ls ∧ queue ls' = queue ls
  ∧ currentIndex ls' = currentIndex ls.
Proof. unfold Leave. repeat case_match; simplify_eq/=; done. Qed.

Lemma newLiveSession_QueueInv `{E : !External} session :
  QueueInv (newLiveSession session).
Proof.
  split; simpl.
  - apply Forall_seq. intros j Hj. rewrite length_map. lia.
  - apply NoDup_seq.
Qed.

Lemma HandleMessage_QueueInv `{E : !External} sender msg ls :
  QueueInv ls → QueueInv (HandleMessage sender msg ls).1.
Proof.
  intros [Hvalid Hnodup]. unfold QueueInv in *.
  handler_cases; try done;
    try (* queue_reorder *)
      (match goal with
       | |- context [insertAt ?t (?q !!! ?f) (removeAt ?f ?q)] =>
           assert (Hperm : insertAt t (q !!! f) (removeAt f q) ≡ₚ q)
             by (rewrite insertAt_perm; symmetry; apply removeAt_perm; lia)
       end; by rewrite Hperm).
  - (* queue_add *)
    rewrite length_app. simpl. split.
    + apply Forall_app. split.
      * eapply Forall_impl; [exact Hvalid|]. simpl. lia.
      * apply Forall_singleton. lia.
    + apply NoDup_app. split; [done|]. split; [|apply NoDup_singleton].
      intros x Hx ->%list_elem_of_singleton.
      rewrite Forall_forall in Hvalid. specialize (Hvalid _ Hx). lia.
  - (* queue_remove, before the current track *)
    rewrite removeAt_delete. split; [by apply Forall_delete|].
    eapply sublist_NoDup; [done|apply sublist_delete].
  - (* queue_remove, after the current track *)
    rewrite removeAt_delete. split; [by apply Forall_delete|].
    eapply sublist_NoDup; [done|apply sublist_delete].
Qed.

Lemma newLiveSession_IndexInv `{E : !External} session :
  IndexInv (newLiveSession session).
Proof.
  unfold IndexInv. simpl. rewrite length_seq.
  destruct (ListenSession.Tracks session); simpl; lia.
Qed.

Lemma HandleMessage_IndexInv `{E : !External} sender msg ls :
  IndexInv ls → IndexInv (HandleMessage sender msg ls).1.
Proof.
  unfold IndexInv. intros Hinv.
  handler_cases; try done;
    rewrite ?insertAt_length, ?length_app, ?removeAt_length by lia;
    simpl; lia.
Qed.

Lemma reachable_QueueInv ls : reachable ls → QueueInv ls.
Proof.
  induction 1 as [E session|id now name isHost ls _ _ IH
                 |E pid ls _ _ IH|E sender msg ls _ _ IH].
  - apply newLiveSession_QueueInv.
  - unfold QueueInv in *.
    by destruct (Join_playback id now name isHost ls) as (-> & -> & _).
  - unfold QueueInv in *.
    by destruct (Leave_playback pid ls) as (-> & -> & _).
  - by apply HandleMessage_QueueInv.
Qed.

Lemma reachable_IndexInv ls : reachable ls → IndexInv ls.
Proof.
  induction 1 as [E session|id now name isHost ls _ _ IH
                 |E pid ls _ _ IH|E sender msg ls _ _ IH].
  - apply newLiveSession_IndexInv.
  - unfold IndexInv in *.
    by destruct (Join_playback id now name isHost ls) as (_ & -> & ->).
  - unfold IndexInv in *.
    by destruct (Leave_playback pid ls) as (_ & -> & ->).
  - by apply HandleMessage_IndexInv.
Qed.

Lemma reachable_demo : reachable demo.
Proof.
  unfold demo.
  do 3 (apply reach_Join; [reflexivity|]).
  apply reach_CreateSession.
Qed.

Lemma reachable_emptyDemo : reachable emptyDemo.
Proof.
  unfold emptyDemo. apply reach_Join; [reflexivity|].
  apply reach_CreateSession.
Qed.

Lemma RangeOK_fixedExternal seek sync pid qpos reorder mf :
  RangeOK (fixedExternal seek sync pid qpos reorder mf).
Proof. by intros m. Qed.

(** C7. In every session that can arise (created by [CreateSession], then
    changed by any sequence of joins, leaves and commands), every entry of
    the queue is a valid index into [tracks] and no index occurs twice in
    the queue. *)
Theorem queue_indices_valid_and_distinct (ls : LiveSession) :
  reachable ls →
  (∀ i idx, queue ls !! i = Some idx → idx < length (tracks ls))
  ∧ NoDup (queue ls).
Proof.
  intros [Hvalid Hnodup]%reachable_QueueInv. split; [|done].
  intros i idx Hi. rewrite Forall_forall in Hvalid.
  apply Hvalid. by eapply list_elem_of_lookup_2.
Qed.

Lemma queue_indices_valid_and_distinct_witness :
  let ls := (@HandleMessage move0to2 part_A reorder0to2
               demoNext).1 in
  reachable ls
  ∧ queue ls = [1; 2; 0]
  ∧ (∀ i idx, queue ls !! i = Some idx → idx < length (tracks ls))
  ∧ NoDup (queue ls).
Proof.
  intros ls.
  assert (Hreach : reachable ls).
  { apply reach_HandleMessage; [apply RangeOK_fixedExternal|].
    apply reach_HandleMessage; [apply RangeOK_fixedExternal|].
    apply reachable_demo. }
  split; [exact Hreach|]. split; [reflexivity|].
  exact (queue_indices_valid_and_distinct ls Hreach).
Defined.

(** ** The longest-connected participant *)

Lemma oldestOf_None (ps : list Participant.t) (o : option Participant.t) :
  oldestOf o ps = None → o = None ∧ ps = [].
Proof.
  revert o. induction ps as [|p ps IH]; intros o Hnone; simpl in *.
  - done.
  - destruct o as [o|]; [destruct (_ <? _)%Z|];
      by apply IH in Hnone as [? _].
Qed.

Lemma oldestOf_elem (ps : list Participant.t) (o : option Participant.t)
    (q : Participant.t) :
  oldestOf o ps = Some q → o = Some q ∨ q ∈ ps.
Proof.
  revert o. induction ps as [|p ps IH]; intros o Hq; simpl in *.
  - by left.
  - destruct o as [o|]; [destruct (_ <? _)%Z|];
      apply IH in Hq as [Hq|Hq]; simplify_eq;
      auto using list_elem_of_here, list_elem_of_further.
Qed.

Lemma oldestOf_min (ps : list Participant.t) (o : option Participant.t)
    (q : Participant.t) :
  oldestOf o ps = Some q →
  (∀ o', o = Some o' → (Participant.JoinedAt q ≤ Participant.JoinedAt o')%Z)
  ∧ (∀ p, p ∈ ps → (Participant.JoinedAt q ≤ Participant.JoinedAt p)%Z).
Proof.
  revert o. induction ps as [|p ps IH]; intros o Hq; simpl in *.
  - split.
    + intros o' ->. simplify_eq. lia.
    + intros p Hp. by apply elem_of_nil in Hp.
  - destruct o as [o|].
    + destruct (Z.ltb_spec (Participant.JoinedAt p) (Participant.JoinedAt o));
        apply IH in Hq as [Ho Hps].
      * specialize (Ho _ eq_refl). split.
        -- intros o' ?. simplify_eq. lia.
        -- intros p' [->|Hp']%elem_of_cons; [lia|by apply Hps].
      * specialize (Ho _ eq_refl). split.
        -- intros o' ?. simplify_eq. lia.
        -- intros p' [->|Hp']%elem_of_cons; [lia|by apply Hps].
    + apply IH in Hq as [Ho Hps]. specialize (Ho _ eq_refl). split.
      * intros o' ?. simplify_eq.
      * intros p' [->|Hp']%elem_of_cons; [lia|by apply Hps].
Qed.

Section Range.
Context `{E : !External} (Hrange : RangeOK E).

Lemma rangeOrder_elem (m : gmap string Participant.t) (p : Participant.t) :
  p ∈ rangeOrder m ↔ ∃ k, m !! k = Some p.
Proof.
  rewrite (Hrange m). rewrite list_elem_of_fmap. split.
  - intros ([k p'] & -> & Hin). exists k. by apply elem_of_map_to_list.
  - intros [k Hk]. exists (k, p). split; [done|].
    by apply elem_of_map_to_list.
Qed.

Lemma rangeOrder_empty : rangeOrder (∅ : gmap string Participant.t) = [].
Proof.
  apply Permutation_nil_r. rewrite (Hrange ∅).
  by rewrite map_to_list_empty.
Qed.

Lemma findLongestConnected_empty (ls : LiveSession) :
  participants ls = ∅ → findLongestConnected ls = "".
Proof.
  intros Hempty. unfold findLongestConnected.
  by rewrite Hempty, rangeOrder_empty.
Qed.

Lemma findLongestConnected_oldest (ls : LiveSession) :
  (∀ k p, participants ls !! k = Some p → Participant.ID p = k) →
  participants ls ≠ ∅ →
  ∃ q, participants ls !! findLongestConnected ls = Some q
       ∧ ∀ k r, participants ls !! k = Some r →
                (Participant.JoinedAt q ≤ Participant.JoinedAt r)%Z.
Proof.
  intros Hkeys Hne. unfold findLongestConnected.
  destruct (oldestOf None (rangeOrder (participants ls))) as [q|] eqn:Hq.
  - exists q. split.
    + apply oldestOf_elem in Hq as [?|Hin]; [done|].
      apply rangeOrder_elem in Hin as [k Hk].
      by rewrite (Hkeys _ _ Hk).
    + intros k r Hr. apply oldestOf_min in Hq as [_ Hmin].
      apply Hmin, rangeOrder_elem. eauto.
  - apply oldestOf_None in Hq as [_ Hnil].
    apply map_choose in Hne as (k & p & Hk).
    assert (Hin : p ∈ rangeOrder (participants ls))
      by (apply rangeOrder_elem; eauto).
    rewrite Hnil in Hin. by apply elem_of_nil in Hin.
Qed.

End Range.

(** ** The remote holder of a session that can arise *)

Lemma isUUID_nonempty (id : string) : isUUID id → id ≠ "".
Proof. by intros Hlen ->. Qed.

Lemma newLiveSession_HolderInv `{E : !External} session :
  HolderInv (newLiveSession session).
Proof. unfold HolderInv. simpl. by repeat split. Qed.

Lemma Join_HolderInv id now name isHost ls :
  id ≠ "" → HolderInv ls → HolderInv (Join id now name isHost ls).1.
Proof.
  intros Hid (Hkeys & Hnoempty & Hnone & Hsome).
  assert (Hkeys' : ∀ k p,
            <[id := Participant.mk id name isHost now]> (participants ls) !! k
            = Some p → Participant.ID p = k).
  { intros k p [[<- <-]|[_ Hk]]%lookup_insert_Some; [done|by apply Hkeys]. }
  unfold Join, HolderInv. simpl.
  destruct (String.eqb_spec (remoteHolder ls) "") as [Hh|Hh]; simpl.
  - repeat split; simpl; [done|by rewrite lookup_insert_ne| |].
    + by intros ?%insert_non_empty.
    + intros _. rewrite lookup_insert_eq. eauto.
  - destruct isHost; simpl.
    + repeat split; simpl; [done|by rewrite lookup_insert_ne| |].
      * by intros ?%insert_non_empty.
      * intros _. rewrite lookup_insert_eq. eauto.
    + repeat split; simpl; [done|by rewrite lookup_insert_ne| |].
      * by intros ?%insert_non_empty.
      * intros _. apply lookup_insert_is_Some'. right.
        apply Hsome. intros Hempty. by apply Hh, Hnone.
Qed.

Lemma Leave_HolderInv `{E : !External} pid ls :
  RangeOK E → HolderInv ls → HolderInv (Leave pid ls).1.
Proof.
  intros Hrange (Hkeys & Hnoempty & Hnone & Hsome).
  unfold Leave. destruct (participants ls !! pid) as [p|] eqn:Hp; [|done].
  assert (Hkeys' : ∀ k q, delete pid (participants ls) !! k = Some q →
                          Participant.ID q = k).
  { intros k q [_ Hk]%lookup_delete_Some. by apply Hkeys. }
  assert (Hnoempty' : delete pid (participants ls) !! "" = None).
  { apply lookup_delete_None. by right. }
  assert (Hinv : HolderInv
    (if String.eqb (remoteHolder ls) pid
     then set_remoteHolder
            (findLongestConnected
               (set_participants (delete pid (participants ls)) ls))
            (set_participants (delete pid (participants ls)) ls)
     else set_participants (delete pid (participants ls)) ls)).
  { destruct (String.eqb_spec (remoteHolder ls) pid) as [Hh|Hh].
    - repeat split; simpl; [done..| |].
      + intros Hempty. by apply findLongestConnected_empty.
      + intros Hne.
        destruct (findLongestConnected_oldest Hrange
                    (set_participants (delete pid (participants ls)) ls))
          as (q & Hq & _); [done..|]. simpl in Hq. eauto.
    - assert (Hin : is_Some (participants ls !! remoteHolder ls)).
      { apply Hsome. intros Hempty. by rewrite Hempty in Hp. }
      assert (Hin' : is_Some (delete pid (participants ls) !! remoteHolder ls)).
      { destruct Hin as [h Hh']. exists h. by apply lookup_delete_Some. }
      repeat split; simpl; [done..| |done].
      intros Hempty. rewrite Hempty in Hin'. by destruct Hin' as [? ?]. }
  simpl. destruct (size _ =? 0); simpl; [|done].
  destruct Hinv as (? & ? & ? & ?).
  by destruct (String.eqb (remoteHolder ls) pid).
Qed.

Lemma HandleMessage_HolderInv `{E : !External} sender msg ls :
  HolderInv ls → HolderInv (HandleMessage sender msg ls).1.
Proof.
  intros Hinv. handler_cases; try done.
  all: destruct Hinv as (Hkeys & Hnoempty & Hnone & Hsome);
    repeat split; simpl; try done.
  all: intros Hempty;
    match goal with H : participants _ !! _ = Some _ |- _ =>
      by rewrite Hempty in H end.
Qed.

Lemma reachable_HolderInv ls : reachable ls → HolderInv ls.
Proof.
  induction 1 as [E session|id now name isHost ls Hid _ IH
                 |E pid ls Hrange _ IH|E sender msg ls _ _ IH].
  - apply newLiveSession_HolderInv.
  - by apply Join_HolderInv; [apply isUUID_nonempty|].
  - by apply Leave_HolderInv.
  - by apply HandleMessage_HolderInv.
Qed.

(** C4. In every session that can arise from [CreateSession] by any
    sequence of Join, Leave and command operations: [remoteHolder] is the
    empty string exactly when there is no participant, and when there are
    participants [remoteHolder] is the ID of one of them. *)
Theorem remote_holder_is_a_participant (ls : LiveSession) :
  reachable ls →
  (remoteHolder ls = "" ↔ participants ls = ∅)
  ∧ (participants ls ≠ ∅ →
     ∃ p, participants ls !! remoteHolder ls = Some p
          ∧ Participant.ID p = remoteHolder ls).
Proof.
  intros (Hkeys & Hnoempty & Hnone & Hsome)%reachable_HolderInv.
  split; [split|].
  - intros Hh. destruct (decide (participants ls = ∅)) as [|Hne]; [done|].
    apply Hsome in Hne as [p Hp]. rewrite Hh in Hp. congruence.
  - done.
  - intros Hne. destruct (Hsome Hne) as [p Hp]. exists p. eauto.
Qed.

Lemma remote_holder_is_a_participant_witness :
  let ls := (@Leave plainExternal id_A demo).1 in
  reachable ls
  ∧ remoteHolder ls = id_B
  ∧ (remoteHolder ls = "" ↔ participants ls = ∅)
  ∧ (participants ls ≠ ∅ →
     ∃ p, participants ls !! remoteHolder ls = Some p
          ∧ Participant.ID p = remoteHolder ls).
Proof.
  intros ls.
  assert (Hreach : reachable ls).
  { apply reach_Leave; [apply RangeOK_fixedExternal|apply reachable_demo]. }
  split; [exact Hreach|]. split; [reflexivity|].
  exact (remote_holder_is_a_participant ls Hreach).
Defined.

(** C8. In a session with at least two participants, when the participant
    who holds the remote leaves, the remote passes to a remaining
    participant whose [JoinedAt] is the earliest: no remaining participant
    joined before the new holder. *)
Theorem leaving_holder_passes_remote_to_oldest `{E : !External}
    (pid : string) (ls : LiveSession) :
  RangeOK E →
  reachable ls →
  remoteHolder ls = pid →
  2 ≤ size (participants ls) →
  let ls' := (Leave pid ls).1 in
  participants ls' = delete pid (participants ls)
  ∧ ∃ q, participants ls' !! remoteHolder ls' = Some q
         ∧ Participant.ID q = remoteHolder ls'
         ∧ ∀ k r, participants ls' !! k = Some r →
                  (Participant.JoinedAt q ≤ Participant.JoinedAt r)%Z.
Proof.
  intros Hrange (Hkeys & Hnoempty & Hnone & Hsome)%reachable_HolderInv
    Hholder Hsize ls'.
  assert (Hne : participants ls ≠ ∅).
  { intros Hempty. rewrite Hempty, map_size_empty in Hsize. lia. }
  destruct (Hsome Hne) as [p Hp]. rewrite Hholder in Hp.
  assert (Hsize' : size (delete pid (participants ls)) ≠ 0).
  { rewrite map_size_delete, Hp. simpl. lia. }
  assert (Hne' : delete pid (participants ls) ≠ ∅)
    by by apply map_size_non_empty_iff.
  assert (Hls' : ls' = set_remoteHolder
                         (findLongestConnected
                            (set_participants (delete pid (participants ls)) ls))
                         (set_participants (delete pid (participants ls)) ls)).
  { subst ls'. unfold Leave. rewrite Hp. simpl.
    rewrite Hholder, String.eqb_refl. simpl.
    by destruct (Nat.eqb_spec (size (delete pid (participants ls))) 0). }
  rewrite Hls'. simpl. split; [done|].
  destruct (findLongestConnected_oldest Hrange
              (set_participants (delete pid (participants ls)) ls))
    as (q & Hq & Hmin); simpl.
  - intros k r [_ Hk]%lookup_delete_Some. by apply Hkeys.
  - done.
  - simpl in Hq, Hmin. exists q. split; [done|]. split; [|done].
    apply lookup_delete_Some in Hq as [_ Hq]. by apply Hkeys.
Qed.

Lemma leaving_holder_passes_remote_to_oldest_witness :
  let ls' := (@Leave plainExternal id_A demo).1 in
  remoteHolder demo = id_A
  ∧ size (participants demo) = 3
  ∧ remoteHolder ls' = id_B
  ∧ ∃ q, participants ls' !! remoteHolder ls' = Some q
         ∧ Participant.ID q = remoteHolder ls'
         ∧ ∀ k r, participants ls' !! k = Some r →
                  (Participant.JoinedAt q ≤ Participant.JoinedAt r)%Z.
Proof.
  intros ls'. do 3 (split; [reflexivity|]).
  apply (@leaving_holder_passes_remote_to_oldest plainExternal id_A demo).
  - apply RangeOK_fixedExternal.
  - apply reachable_demo.
  - reflexivity.
  - vm_compute. lia.
Defined.

(** ** Playing with an empty queue *)

(** C2, as the code has it. In every session that can arise, an empty
    queue implies [currentIndex = 0]. A play command from the remote
    holder sets [isPlaying] to true and changes nothing else, whether the
    queue is empty or not; it is not a no-op on an empty queue. *)
Theorem empty_queue_index_zero_play_unguarded `{E : !External}
    (sender : Participant.t) (msg : WSMessage.t) (ls : LiveSession) :
  reachable ls →
  WSMessage.Action msg = "play" →
  isRemoteHolder ls sender = true →
  (queue ls = [] → currentIndex ls = 0%Z)
  ∧ HandleMessage sender msg ls
    = (set_isPlaying true ls, broadcastState (set_isPlaying true ls) "play")
  ∧ isPlaying (HandleMessage sender msg ls).1 = true
  ∧ queue (HandleMessage sender msg ls).1 = queue ls
  ∧ (queue (HandleMessage sender msg ls).1 = [] →
     currentIndex (HandleMessage sender msg ls).1 = 0%Z).
Proof.
  intros Hreach Ha Hh.
  assert (Hidx : queue ls = [] → currentIndex ls = 0%Z).
  { intros Hq. destruct (reachable_IndexInv ls Hreach) as [[_ ?]|Hin]; [done|].
    rewrite Hq in Hin. simpl in Hin. lia. }
  rewrite HandleMessage_play by done. unfold handlePlay. rewrite Hh. simpl.
  by repeat split.
Qed.

Lemma empty_queue_index_zero_play_unguarded_witness :
  let ls' := (@HandleMessage plainExternal part_A (command "play")
                emptyDemo).1 in
  reachable emptyDemo
  ∧ isRemoteHolder emptyDemo part_A = true
  ∧ queue emptyDemo = []
  ∧ currentIndex emptyDemo = 0%Z
  ∧ isPlaying ls' = true
  ∧ queue ls' = [].
Proof.
  intros ls'.
  destruct (@empty_queue_index_zero_play_unguarded plainExternal part_A
              (command "play") emptyDemo reachable_emptyDemo eq_refl eq_refl)
    as (Hidx & _ & Hplay & Hq & _).
  split; [apply reachable_emptyDemo|]. split; [reflexivity|].
  split; [reflexivity|]. split; [apply Hidx; reflexivity|].
  split; [exact Hplay|]. exact Hq.
Defined.

(** C2 fails as stated: a session created without tracks, in which the
    holder sends play, has an empty queue and [isPlaying = true]. *)
Lemma play_on_empty_queue_sets_isPlaying :
  let ls' := (@HandleMessage plainExternal part_A (command "play")
                emptyDemo).1 in
  reachable ls'
  ∧ isRemoteHolder emptyDemo part_A = true
  ∧ queue emptyDemo = []
  ∧ isPlaying emptyDemo = false
  ∧ queue ls' = []
  ∧ isPlaying ls' = true
  ∧ ¬ (queue ls' = [] → currentIndex ls' = 0%Z ∧ isPlaying ls' = false).
Proof.
  intros ls'. split.
  { apply reach_HandleMessage;
      [apply RangeOK_fixedExternal|apply reachable_emptyDemo]. }
  do 5 (split; [reflexivity|]).
  intros Hclaim. destruct (Hclaim eq_refl) as [_ Hplay]. discriminate Hplay.
Qed.

(** ** Ending the session *)

Lemma trySend_open (msg : WSMessage.t) (c : Chan.t) :
  Chan.closed c = false →
  ∃ c', trySend msg c = Some c'
        ∧ Chan.closed c' = false
        ∧ Chan.buf c' = if length (Chan.buf c) <? sendChannelSize
                        then Chan.buf c ++ [msg] else Chan.buf c.
Proof.
  intros Hopen. unfold trySend. rewrite Hopen.
  destruct (length (Chan.buf c) <? sendChannelSize); eauto.
Qed.

(** The loop of [handleEndSession] over participants with distinct IDs and
    open channels: every one of them is offered [endMsg] once and has its
    connection closed; nothing else changes. *)
Lemma performAll_end_loop (ps : list Participant.t) (w : World) :
  NoDup (Participant.ID <$> ps) →
  (∀ p, p ∈ ps → ∃ c, sendChs w !! Participant.ID p = Some c
                      ∧ Chan.closed c = false) →
  ∃ w', performAll
          (flat_map (λ p, [TrySend (Participant.ID p) endMsg;
                           ConnClose (Participant.ID p)]) ps) w = Some w'
        ∧ hub w' = hub w
        ∧ heap w' = heap w
        ∧ (∀ p, p ∈ ps → Participant.ID p ∈ closedConns w')
        ∧ closedConns w ⊆ closedConns w'
        ∧ (∀ k, sendChs w' !! k
                = if decide (k ∈ Participant.ID <$> ps)
                  then sendChs w !! k ≫= trySend endMsg
                  else sendChs w !! k).
Proof.
  revert w. induction ps as [|p ps IH]; intros w Hnodup Hopen.
  - exists w. do 3 (split; [done|]). split; [|split; [done|]].
    + intros p Hp. by apply elem_of_nil in Hp.
    + intros k. case_decide as Hk; [by apply elem_of_nil in Hk|done].
  - simpl. apply NoDup_cons in Hnodup as [Hfresh Hnodup].
    destruct (Hopen p) as (c & Hc & Hcopen); [apply list_elem_of_here|].
    destruct (trySend_open endMsg c Hcopen) as (c' & Hsend & Hc'open & _).
    rewrite Hc. simpl. rewrite Hsend. simpl.
    set (w2 := mkWorld (hub w) (heap w)
                 (<[Participant.ID p := c']> (sendChs w))
                 ({[Participant.ID p]} ∪ closedConns w)).
    destruct (IH w2) as (w' & Hrun & Hhub & Hheap & Hclosed & Hmono & Hchs).
    { done. }
    { intros q Hq. simpl.
      assert (Participant.ID q ≠ Participant.ID p).
      { intros Heq. apply Hfresh. rewrite <- Heq.
        by apply list_elem_of_fmap_2. }
      rewrite lookup_insert_ne by done.
      apply Hopen. by apply list_elem_of_further. }
    exists w'. split; [done|]. split; [done|]. split; [done|].
    split; [|split].
    + intros q [->|Hq]%elem_of_cons; [|by apply Hclosed].
      apply Hmono. simpl. set_solver.
    + intros x Hx. apply Hmono. simpl. set_solver.
    + intros k. rewrite Hchs. simpl.
      destruct (decide (k = Participant.ID p)) as [->|Hne].
      * rewrite lookup_insert_eq, Hc. simpl.
        rewrite decide_False by done.
        rewrite decide_True by apply list_elem_of_here. done.
      * rewrite lookup_insert_ne by done.
        destruct (decide (k ∈ Participant.ID <$> ps)) as [Hin|Hnin].
        -- by rewrite decide_True by by apply list_elem_of_further.
        -- rewrite decide_False; [done|].
           by intros [?|?]%elem_of_cons.
Qed.

Lemma rangeOrder_ids `{E : !External} (m : gmap string Participant.t) :
  RangeOK E →
  (∀ k p, m !! k = Some p → Participant.ID p = k) →
  Participant.ID <$> rangeOrder m ≡ₚ (map_to_list m).*1.
Proof.
  intros Hrange Hkeys. rewrite (Hrange m).
  assert (Hall : Forall (λ kp, Participant.ID kp.2 = kp.1) (map_to_list m)).
  { apply Forall_forall. intros [k p] Hin. simpl.
    by apply Hkeys, elem_of_map_to_list. }
  induction Hall as [|[k p] l Hkp _ IH]; simpl in *; [done|].
  by rewrite Hkp, IH.
Qed.

(** The hub's map loses IDs through [removeSession] and gains them through
    [CreateSession] only. *)
Lemma performAll_sessions_None (id : string) (effs : list Effect)
    (w w' : World) :
  performAll effs w = Some w' →
  GetSession (hub w) id = None →
  GetSession (hub w') id = None.
Proof.
  unfold GetSession. revert w.
  induction effs as [|eff effs IH]; intros w Hrun Hnone; simpl in Hrun.
  - by simplify_eq/=.
  - destruct (perform eff w) as [w1|] eqn:Hstep; [|done]. simpl in Hrun.
    apply (IH w1 Hrun).
    destruct eff as [to msg|pid|pid|sid]; simpl in Hstep.
    + destruct (sendChs w !! to) as [c|]; [|done]. simpl in Hstep.
      destruct (trySend msg c); [|done]. by simplify_eq/=.
    + destruct (sendChs w !! pid) as [c|]; [|done]. simpl in Hstep.
      destruct (closeChan c); [|done]. by simplify_eq/=.
    + by simplify_eq/=.
    + simplify_eq. simpl. apply lookup_delete_None. by right.
Qed.

Lemma CreateSession_sessions_None `{E : !External} (id : string)
    (session : ListenSession.t) (w : World) :
  ListenSession.ID session ≠ id →
  GetSession (hub w) id = None →
  GetSession (hub (CreateSession session w).1) id = None.
Proof.
  unfold GetSession, CreateSession. intros Hne Hnone.
  destruct (sessions (hub w) !! ListenSession.ID session); simpl; [done|].
  by rewrite lookup_insert_ne.
Qed.

Lemma handleWebSocket_sessions_None `{E : !External} (id : string)
    (load : string → option ListenSession.t) (upgraded : bool)
    (uuid : string) (now : Z) (id' name host : string) (w w' : World)
    (out : WsOutcome) :
  (∀ session, load id' = Some session → ListenSession.ID session ≠ id) →
  handleWebSocket load upgraded uuid now id' name host w = Some (w', out) →
  GetSession (hub w) id = None →
  GetSession (hub w') id = None.
Proof.
  intros Hload Hrun Hnone. unfold handleWebSocket in Hrun.
  assert (Hfound : ∀ w0 a,
    GetSession (hub w0) id = None →
    (if negb upgraded then Some (w0, WsUpgradeFailed)
     else
       ls ← heap w0 !! a;
       let '(ls, p) :=
         Join uuid now (if String.eqb name "" then "Guest" else name)
           (String.eqb host "true") ls in
       w1 ← performAll (SendWelcome p ls ++ broadcastParticipants ls
                        ++ broadcastRemote ls)
              (mkWorld (hub w0) (<[a := ls]> (heap w0))
                 (<[uuid := Chan.make]> (sendChs w0))
                 (closedConns w0 ∖ {[uuid]}));
       Some (w1, WsConnected p a)) = Some (w', out) →
    GetSession (hub w') id = None).
  { intros w0 a Hnone0 Hrun0.
    destruct upgraded; cbn [negb] in Hrun0; [|by simplify_eq].
    destruct (heap w0 !! a) as [ls|]; cbn [mbind option_bind] in Hrun0;
      [|done].
    destruct (Join _ _ _ _ ls) as [ls' p].
    destruct (performAll _ _) as [w1|] eqn:Hp;
      cbn [mbind option_bind] in Hrun0; [|done].
    simplify_eq. by apply (performAll_sessions_None id _ _ _ Hp). }
  destruct (GetSession (hub w) id') as [a|] eqn:Hget.
  - by apply (Hfound w a).
  - destruct (load id') as [session|] eqn:Hl; [|by simplify_eq].
    pose proof (CreateSession_sessions_None id session w (Hload _ eq_refl)
                  Hnone) as Hcreated.
    destruct (CreateSession session w) as [w0 a]. simpl in Hcreated.
    by apply (Hfound w0 a).
Qed.

Lemma subsequent_GetSession_None (id : string) (w w' : World) :
  subsequent id w w' →
  GetSession (hub w) id = None →
  GetSession (hub w') id = None.
Proof.
  induction 1 as [w|E a sender msg w w1 w2 _ IH Hrun
                 |E a pid w w1 w2 _ IH Hrun|a w w1 w2 _ IH Hrun
                 |E session w w1 _ IH Hne
                 |E load upgraded uuid now id' name host w w1 w2 out _ IH
                    Hload Hrun]; intros Hnone.
  - done.
  - specialize (IH Hnone). unfold HandleMessageAt in Hrun.
    destruct (heap w1 !! a) as [ls|]; [|done]. simpl in Hrun.
    destruct (HandleMessage sender msg ls) as [ls' effs].
    by apply (performAll_sessions_None id _ _ _ Hrun).
  - specialize (IH Hnone). unfold LeaveAt in Hrun.
    destruct (heap w1 !! a) as [ls|]; [|done]. simpl in Hrun.
    destruct (Leave pid ls) as [ls' effs].
    by apply (performAll_sessions_None id _ _ _ Hrun).
  - specialize (IH Hnone). unfold graceExpiredAt in Hrun.
    destruct (heap w1 !! a) as [ls|]; [|done]. simpl in Hrun.
    by apply (performAll_sessions_None id _ _ _ Hrun).
  - by apply CreateSession_sessions_None; auto.
  - by apply (handleWebSocket_sessions_None id _ _ _ _ _ _ _ _ _ _ Hload Hrun);
      auto.
Qed.

(** C9, as the code has it. When the remote holder issues end_session in a
    session that can arise and whose participants are connected (their
    channels are open): for every participant the error message with
    action session_ended is offered to the participant's send queue by a
    non-blocking send, so it is enqueued when the queue holds fewer than
    [sendChannelSize] messages and dropped when the queue is full; every
    participant's connection is closed; and the session ID is no longer in
    the hub, so [GetSession] returns none, then and in every later world
    of the hub for as long as [CreateSession] is not called with that ID
    again: whatever commands, departures, grace timers, sessions created
    under other IDs and connections for which the store does not return
    the session follow. *)
Theorem end_session_notifies_closes_evicts `{E : !External}
    (a : nat) (sender : Participant.t) (msg : WSMessage.t)
    (ls : LiveSession) (w : World) :
  RangeOK E →
  WSMessage.Action msg = "end_session" →
  heap w !! a = Some ls →
  reachable ls →
  isRemoteHolder ls sender = true →
  (∀ k p, participants ls !! k = Some p →
          ∃ c, sendChs w !! k = Some c ∧ Chan.closed c = false) →
  ∃ w', HandleMessageAt a sender msg w = Some w'
        ∧ GetSession (hub w') (sessionID ls) = None
        ∧ (∀ w'', subsequent (sessionID ls) w' w'' →
                  GetSession (hub w'') (sessionID ls) = None)
        ∧ heap w' !! a = Some ls
        ∧ ∀ k p, participants ls !! k = Some p →
            k ∈ closedConns w'
            ∧ ∃ c c', sendChs w !! k = Some c
                      ∧ sendChs w' !! k = Some c'
                      ∧ Chan.buf c'
                        = if length (Chan.buf c) <? sendChannelSize
                          then Chan.buf c ++ [endMsg] else Chan.buf c.
Proof.
  intros Hrange Ha Hls (Hkeys & _)%reachable_HolderInv Hh Hopen.
  unfold HandleMessageAt. rewrite Hls. simpl.
  rewrite HandleMessage_end_session by done.
  unfold handleEndSession. rewrite Hh. simpl.
  rewrite (insert_id _ _ _ Hls).
  assert (Hids : Participant.ID <$> rangeOrder (participants ls)
                 ≡ₚ (map_to_list (participants ls)).*1)
    by by apply rangeOrder_ids.
  destruct (performAll_end_loop (rangeOrder (participants ls))
              (mkWorld (hub w) (heap w) (sendChs w) (closedConns w)))
    as (w1 & Hrun & Hhub & Hheap & Hclosed & _ & Hchs).
  { rewrite Hids. apply NoDup_fst_map_to_list. }
  { intros p [k Hk]%(rangeOrder_elem Hrange). simpl.
    rewrite (Hkeys _ _ Hk). eauto. }
  assert (Hloop : ∀ effs w0,
    performAll (flat_map (λ p, [TrySend (Participant.ID p) endMsg;
                                ConnClose (Participant.ID p)])
                  (rangeOrder (participants ls)) ++ effs) w0
    = performAll (flat_map (λ p, [TrySend (Participant.ID p) endMsg;
                                  ConnClose (Participant.ID p)])
                    (rangeOrder (participants ls))) w0
      ≫= performAll effs).
  { intros effs. generalize (flat_map (λ p, [TrySend (Participant.ID p) endMsg;
                                ConnClose (Participant.ID p)])
                  (rangeOrder (participants ls))).
    induction l as [|eff l IH]; intros w0; simpl; [done|].
    destruct (perform eff w0); simpl; [apply IH|done]. }
  rewrite Hloop, Hrun. simpl.
  eexists. split; [done|]. simpl. split; [|split; [|split]].
  - unfold GetSession. simpl. apply lookup_delete_eq.
  - intros w'' Hsub. apply (subsequent_GetSession_None _ _ _ Hsub).
    unfold GetSession. simpl. apply lookup_delete_eq.
  - by rewrite Hheap.
  - intros k p Hk.
    assert (Hin : p ∈ rangeOrder (participants ls))
      by (apply (rangeOrder_elem Hrange); eauto).
    split.
    + rewrite <- (Hkeys _ _ Hk). by apply Hclosed.
    + destruct (Hopen _ _ Hk) as (c & Hc & Hcopen).
      destruct (trySend_open endMsg c Hcopen) as (c' & Hsend & _ & Hbuf).
      exists c, c'. split; [done|]. split; [|done].
      rewrite Hchs. simpl. rewrite decide_True.
      * by rewrite Hc.
      * rewrite <- (Hkeys _ _ Hk). by apply list_elem_of_fmap_2.
Qed.

Lemma end_session_notifies_closes_evicts_witness :
  ∃ w', @HandleMessageAt plainExternal 0 part_A (command "end_session")
          demoWorld = Some w'
        ∧ GetSession (hub demoWorld) (sessionID demo) = Some 0
        ∧ GetSession (hub w') (sessionID demo) = None
        ∧ (∃ w'', @LeaveAt plainExternal 0 id_B w' = Some w''
                  ∧ GetSession (hub w'') (sessionID demo) = None)
        ∧ ∀ k p, participants demo !! k = Some p →
            k ∈ closedConns w'
            ∧ ∃ c', sendChs w' !! k = Some c' ∧ Chan.buf c' = [endMsg].
Proof.
  destruct (@end_session_notifies_closes_evicts plainExternal 0 part_A
              (command "end_session") demo demoWorld)
    as (w' & Hrun & Hget & Hlater & _ & Hall).
  - apply RangeOK_fixedExternal.
  - reflexivity.
  - reflexivity.
  - apply reachable_demo.
  - reflexivity.
  - intros k p Hk. exists Chan.make. split; [|done].
    assert (Hcases : k = id_A ∨ k = id_B ∨ k = id_C).
    { unfold demo, Join in Hk. simpl in Hk.
      apply lookup_insert_Some in Hk as [[? _]|[_ Hk]]; [by auto|].
      apply lookup_insert_Some in Hk as [[? _]|[_ Hk]]; [by auto|].
      apply lookup_insert_Some in Hk as [[? _]|[_ Hk]]; [by auto|].
      by rewrite lookup_empty in Hk. }
    by destruct Hcases as [->|[->| ->]].
  - exists w'. split; [exact Hrun|]. split; [reflexivity|].
    split; [exact Hget|]. split.
    { assert (Hleave : ∃ w'',
        @HandleMessageAt plainExternal 0 part_A (command "end_session")
          demoWorld ≫= @LeaveAt plainExternal 0 id_B = Some w'')
        by (eexists; vm_compute; reflexivity).
      destruct Hleave as [w'' Hleave]. rewrite Hrun in Hleave.
      cbn [mbind option_bind] in Hleave.
      exists w''. split; [exact Hleave|]. apply Hlater.
      exact (sub_Leave _ plainExternal 0 id_B _ _ _ (sub_now _ _) Hleave). }
    intros k p Hk. destruct (Hall k p Hk) as (Hclosed & c & c' & Hc & Hc' & Hbuf).
    split; [exact Hclosed|]. exists c'. split; [exact Hc'|].
    assert (Hempty : Chan.buf c = []).
    { assert (Hcases : c = Chan.make); [|by rewrite Hcases].
      unfold demoWorld in Hc. simpl in Hc.
      apply lookup_insert_Some in Hc as [[_ ?]|[_ Hc]]; [done|].
      apply lookup_insert_Some in Hc as [[_ ?]|[_ Hc]]; [done|].
      by apply lookup_singleton_Some in Hc as [_ ?]. }
    by rewrite Hbuf, Hempty.
Defined.

(** C9 fails as stated, in two ways. B, who does not hold the remote, sent
    16 play commands; the 16 error messages wait in B's send queue, which
    is then full. The holder A ends the session: B's queue still holds the
    16 error messages and no session_ended message, and B's connection is
    closed, so B never receives session_ended. And when A has ended the
    session of [demoWorld], whose ID [GetSession] then no longer finds, a
    client D that connects for that ID while the store still holds the
    session makes [handleWebSocket] create it again: a later [GetSession]
    returns a session. *)
Lemma end_session_full_queue_and_recreation :
  (∃ w w',
     deniedPlays 16 demoWorld = Some w
     ∧ @HandleMessageAt plainExternal 0 part_A (command "end_session") w
       = Some w'
     ∧ participants demo !! id_B = Some part_B
     ∧ id_B ∈ closedConns w'
     ∧ ∃ c', sendChs w' !! id_B = Some c'
             ∧ Chan.buf c'
               = replicate 16
                   (errorMsg "only the remote holder can control playback")
             ∧ Forall (λ m, WSMessage.Action m ≠ "session_ended")
                 (Chan.buf c'))
  ∧ (∃ w1 w2 p,
       isRemoteHolder demo part_A = true
       ∧ @HandleMessageAt plainExternal 0 part_A (command "end_session")
           demoWorld
         = Some w1
       ∧ GetSession (hub w1) (sessionID demo) = None
       ∧ @handleWebSocket plainExternal (storeWith descriptor1) true id_D 40
           (sessionID demo) "D" "false" w1
         = Some (w2, WsConnected p 1)
       ∧ GetSession (hub w2) (sessionID demo) = Some 1).
Proof.
  split.
  - eexists. eexists.
    split; [vm_compute; reflexivity|].
    split; [vm_compute; reflexivity|].
    split; [reflexivity|].
    split; [refine (bool_decide_unpack _ _); vm_compute; exact I|].
    eexists. split; [vm_compute; reflexivity|].
    split; [reflexivity|].
    simpl. repeat constructor; discriminate.
  - eexists. eexists. eexists.
    split; [reflexivity|].
    split; [vm_compute; reflexivity|].
    split; [vm_compute; reflexivity|].
    split; [vm_compute; reflexivity|].
    vm_compute. reflexivity.
Qed.

(** * Further properties of the hub, the connection and the client *)

(** ** What a command can change *)

(** Case analysis on the action of a message. *)
Lemma HandleMessage_action_cases `{E : !External}
    (P : LiveSession * list Effect → Prop)
    (sender : Participant.t) (msg : WSMessage.t) (ls : LiveSession) :
  let action := WSMessage.Action msg in
  let payload := WSMessage.Payload msg in
  (action = "play" → P (handlePlay sender ls)) →
  (action = "pause" → P (handlePause sender ls)) →
  (action = "seek" → P (handleSeek sender payload ls)) →
  (action = "skip_next" → P (handleSkipNext sender ls)) →
  (action = "skip_prev" → P (handleSkipPrev sender ls)) →
  (action = "sync" → P (handleSync sender payload ls)) →
  (action = "pass_remote" → P (handlePassRemote sender payload ls)) →
  (action = "request_remote" → P (handleRequestRemote sender ls)) →
  (action = "accept_remote_request" →
   P (handleAcceptRemoteRequest sender payload ls)) →
  (action = "queue_add" → P (handleQueueAdd sender payload ls)) →
  (action = "queue_remove" → P (handleQueueRemove sender payload ls)) →
  (action = "queue_reorder" → P (handleQueueReorder sender payload ls)) →
  (action = "end_session" → P (handleEndSession sender ls)) →
  (action ∉ knownActions →
   P (ls, sendError sender ("unknown action: " +:+ action))) →
  P (HandleMessage sender msg ls).
Proof.
  intros action payload. intros.
  unfold HandleMessage. fold action payload.
  repeat match goal with
         | |- context [String.eqb action ?s] =>
             destruct (String.eqb_spec action s); [by auto|]
         end.
  match goal with H : _ ∉ knownActions → _ |- _ => apply H end.
  unfold knownActions. rewrite !not_elem_of_cons. repeat split; try done.
  apply not_elem_of_nil.
Qed.

Lemma HandleMessage_participants `{E : !External}
    (sender : Participant.t) (msg : WSMessage.t) (ls : LiveSession) :
  participants (HandleMessage sender msg ls).1 = participants ls
  ∧ graceTimer (HandleMessage sender msg ls).1 = graceTimer ls.
Proof. handler_cases; done. Qed.

(** X1. No command adds or removes a participant, arms or stops the grace
    timer, or changes the session's ID, owner, format or bit rate: only
    [Join] and [Leave] change the membership. *)
Theorem commands_keep_membership `{E : !External}
    (sender : Participant.t) (msg : WSMessage.t) (ls : LiveSession) :
  let ls' := (HandleMessage sender msg ls).1 in
  participants ls' = participants ls
  ∧ graceTimer ls' = graceTimer ls
  ∧ sessionID ls' = sessionID ls
  ∧ hostUserID ls' = hostUserID ls
  ∧ format ls' = format ls
  ∧ maxBitRate ls' = maxBitRate ls.
Proof.
  simpl. apply HandleMessage_cases; intros; unfold_handlers;
    repeat case_match; simplify_eq/=; done.
Qed.

(** X2. The tracks of a session are append-only: a command leaves
    [tracks] as it was or, for a queue_add that succeeds, appends one
    track; so the index of a track never changes and no track is ever
    dropped. *)
Theorem tracks_append_only `{E : !External}
    (sender : Participant.t) (msg : WSMessage.t) (ls : LiveSession) :
  let ls' := (HandleMessage sender msg ls).1 in
  (∃ added, tracks ls' = tracks ls ++ added ∧ length added ≤ 1
            ∧ (WSMessage.Action msg ≠ "queue_add" → added = []))
  ∧ (∀ i t, tracks ls !! i = Some t → tracks ls' !! i = Some t).
Proof.
  simpl.
  assert (Hadd : ∃ added,
            tracks (HandleMessage sender msg ls).1 = tracks ls ++ added
            ∧ length added ≤ 1
            ∧ (WSMessage.Action msg ≠ "queue_add" → added = [])).
  { apply HandleMessage_action_cases; intros Ha; unfold_handlers;
      repeat case_match; simplify_eq/=;
      try (exists []; rewrite app_nil_r; by repeat split; auto).
    eexists [_]. by repeat split; auto. }
  split; [done|].
  destruct Hadd as (added & -> & _). intros i t Hi.
  by apply lookup_app_l_Some.
Qed.

Ltac absurd_action :=
  match goal with
  | Ha : WSMessage.Action _ = _, Hn : WSMessage.Action _ ∉ _ |- _ =>
      solve [exfalso; apply Hn; rewrite Ha; repeat constructor]
  end.

(** X3. Each field of the playback state is changed by its own commands
    only: [isPlaying] by play and pause; [position] by seek, sync and the
    two skips; [remoteHolder] by pass_remote and accept_remote_request;
    [queue] by the three queue commands; [currentIndex] by the skips,
    sync, queue_remove and queue_reorder. *)
Theorem commands_change_their_own_fields `{E : !External}
    (sender : Participant.t) (msg : WSMessage.t) (ls : LiveSession) :
  let action := WSMessage.Action msg in
  let ls' := (HandleMessage sender msg ls).1 in
  (action ∉ ["play"; "pause"] → isPlaying ls' = isPlaying ls)
  ∧ (action ∉ ["seek"; "sync"; "skip_next"; "skip_prev"] →
     position ls' = position ls)
  ∧ (action ∉ ["pass_remote"; "accept_remote_request"] →
     remoteHolder ls' = remoteHolder ls)
  ∧ (action ∉ ["queue_add"; "queue_remove"; "queue_reorder"] →
     queue ls' = queue ls)
  ∧ (action ∉ ["skip_next"; "skip_prev"; "sync"; "queue_remove";
               "queue_reorder"] →
     currentIndex ls' = currentIndex ls).
Proof.
  simpl. repeat split; intros Hn;
    apply HandleMessage_action_cases; intros Ha; try absurd_action;
    unfold_handlers; repeat case_match; simplify_eq/=; done.
Qed.

Lemma commands_change_their_own_fields_witness :
  let ls' := (@HandleMessage removeAt0 part_A remove0 demoNext).1 in
  (WSMessage.Action remove0 ∉ ["play"; "pause"])
  ∧ (WSMessage.Action remove0 ∉ ["seek"; "sync"; "skip_next"; "skip_prev"])
  ∧ queue ls' ≠ queue demoNext
  ∧ isPlaying ls' = isPlaying demoNext
  ∧ position ls' = position demoNext.
Proof.
  intros ls'.
  assert (H1 : WSMessage.Action remove0 ∉ ["play"; "pause"])
    by (rewrite !not_elem_of_cons; repeat split; try done;
        apply not_elem_of_nil).
  assert (H2 : WSMessage.Action remove0
               ∉ ["seek"; "sync"; "skip_next"; "skip_prev"])
    by (rewrite !not_elem_of_cons; repeat split; try done;
        apply not_elem_of_nil).
  destruct (@commands_change_their_own_fields removeAt0 part_A remove0
              demoNext) as (Hplay & Hpos & _).
  split; [exact H1|]. split; [exact H2|]. split; [discriminate|].
  split; [exact (Hplay H1)|exact (Hpos H2)].
Defined.

(** X4. A message whose action is none of the thirteen known ones changes
    nothing and is answered with one error to its sender, quoting the
    action, whether or not the sender holds the remote. *)
Theorem unknown_action_rejected `{E : !External}
    (sender : Participant.t) (msg : WSMessage.t) (ls : LiveSession) :
  WSMessage.Action msg ∉ knownActions →
  HandleMessage sender msg ls
  = (ls, [TrySend (Participant.ID sender)
            (errorMsg ("unknown action: " +:+ WSMessage.Action msg))]).
Proof.
  intros Hn. apply HandleMessage_action_cases; intros Ha;
    try absurd_action. done.
Qed.

Lemma unknown_action_rejected_witness :
  ("stop" ∉ knownActions)
  ∧ @HandleMessage plainExternal part_A (command "stop") demo
    = (demo, [TrySend id_A (errorMsg "unknown action: stop")]).
Proof.
  assert (Hn : WSMessage.Action (command "stop") ∉ knownActions)
    by (unfold knownActions; rewrite !not_elem_of_cons; repeat split;
        try done; apply not_elem_of_nil).
  split; [exact Hn|].
  exact (@unknown_action_rejected plainExternal part_A (command "stop")
           demo Hn).
Defined.

(** ** The current track and the queue *)

(** X5. In every session that can arise and whose queue is not empty,
    [currentIndex] is a position of the queue and resolves, through
    [tracks[queue[currentIndex]]], to a track: there is always a current
    track. *)
Theorem current_track_defined (ls : LiveSession) :
  reachable ls →
  queue ls ≠ [] →
  (0 ≤ currentIndex ls < Z.of_nat (length (queue ls)))%Z
  ∧ ∃ idx t, queue ls !! Z.to_nat (currentIndex ls) = Some idx
             ∧ tracks ls !! idx = Some t
             ∧ currentTrack ls = Some t.
Proof.
  intros Hreach Hne.
  destruct (reachable_IndexInv ls Hreach) as [[Hlen _]|Hin].
  { destruct (queue ls); [done|discriminate]. }
  destruct (reachable_QueueInv ls Hreach) as [Hvalid _].
  split; [done|].
  destruct (lookup_lt_is_Some_2 (queue ls) (Z.to_nat (currentIndex ls)))
    as [idx Hidx]; [lia|].
  assert (Hlt : idx < length (tracks ls)).
  { rewrite Forall_forall in Hvalid. apply Hvalid.
    by eapply list_elem_of_lookup_2. }
  destruct (lookup_lt_is_Some_2 (tracks ls) idx Hlt) as [t Ht].
  exists idx, t. split; [done|]. split; [done|].
  unfold currentTrack, indexZ.
  destruct (Z.ltb_spec (currentIndex ls) 0); [lia|].
  rewrite Hidx. simpl. done.
Qed.

Lemma current_track_defined_witness :
  reachable demoNext
  ∧ queue demoNext ≠ []
  ∧ currentIndex demoNext = 1%Z
  ∧ ∃ idx t, queue demoNext !! Z.to_nat (currentIndex demoNext) = Some idx
             ∧ tracks demoNext !! idx = Some t
             ∧ currentTrack demoNext = Some t.
Proof.
  assert (Hreach : reachable demoNext).
  { apply reach_HandleMessage;
      [apply RangeOK_fixedExternal|apply reachable_demo]. }
  assert (Hne : queue demoNext ≠ []) by discriminate.
  split; [exact Hreach|]. split; [exact Hne|]. split; [reflexivity|].
  exact (proj2 (current_track_defined demoNext Hreach Hne)).
Defined.

(** X6. In a session that can arise, no command empties the queue: the
    current track cannot be removed, so a queue that is not empty stays
    so. *)
Theorem queue_never_emptied `{E : !External}
    (sender : Participant.t) (msg : WSMessage.t) (ls : LiveSession) :
  reachable ls →
  queue ls ≠ [] →
  queue (HandleMessage sender msg ls).1 ≠ [].
Proof.
  intros Hreach Hne.
  assert (Hpos : 0 < length (queue ls))
    by (destruct (queue ls); [done|simpl; lia]).
  assert (Hidx := reachable_IndexInv ls Hreach). unfold IndexInv in Hidx.
  assert (Hlen : 0 < length (queue (HandleMessage sender msg ls).1)).
  { handler_cases; try done;
      rewrite ?insertAt_length, ?length_app, ?removeAt_length by lia;
      simpl; lia. }
  intros Hnil. rewrite Hnil in Hlen. simpl in Hlen. lia.
Qed.

Lemma queue_never_emptied_witness :
  let ls := (@HandleMessage removeAt1 part_B remove1
               (@HandleMessage removeAt1 part_B remove1 soloDemo).1).1 in
  reachable ls
  ∧ queue ls = [0]
  ∧ queue (@HandleMessage removeAt0 part_B remove0 ls).1 ≠ [].
Proof.
  intros ls.
  assert (Hreach : reachable ls).
  { do 2 (apply reach_HandleMessage; [apply RangeOK_fixedExternal|]).
    apply reach_Join; [reflexivity|].
    apply (reach_CreateSession plainExternal). }
  split; [exact Hreach|]. split; [reflexivity|].
  apply (@queue_never_emptied removeAt0 part_B remove0 ls Hreach).
  discriminate.
Defined.

(** ** Leaving, the grace timer and joining *)

Lemma Leave_participants `{E : !External} (pid : string) (ls : LiveSession) :
  participants (Leave pid ls).1 = delete pid (participants ls).
Proof.
  unfold Leave. destruct (participants ls !! pid) eqn:Hp; simpl.
  - repeat case_match; done.
  - by rewrite delete_id.
Qed.


(** X8. Leaving is idempotent: once [Leave] has run for an ID, a second
    [Leave] for the same ID changes nothing and performs no effect; in
    particular the participant's channel is not closed twice. *)
Theorem leave_is_idempotent `{E : !External} (pid : string) (ls : LiveSession) :
  Leave pid (Leave pid ls).1 = ((Leave pid ls).1, []).
Proof.
  assert (Hgone : participants (Leave pid ls).1 !! pid = None)
    by (rewrite Leave_participants; apply lookup_delete_eq).
  generalize dependent (Leave pid ls).1. intros ls' Hgone.
  unfold Leave. by rewrite Hgone.
Qed.



Lemma Join_participants (id : string) (now : Z) (name : string)
    (isHost : bool) (ls : LiveSession) :
  participants (Join id now name isHost ls).1
  = <[id := Participant.mk id name isHost now]> (participants ls).
Proof. unfold Join. simpl. by destruct (_ || _). Qed.

(** X10. When the only participant of a session leaves: nobody is left,
    nobody holds the remote, the grace timer is armed, and the only effect
    is the closing of the leaver's channel (nothing is broadcast). If the
    timer then fires, the session is evicted from the hub; if somebody
    joined in between, the timer evicts nothing and the joiner holds the
    remote, host or not. *)
Theorem last_leaver_arms_grace_timer `{E : !External}
    (pid : string) (p : Participant.t) (ls : LiveSession)
    (id : string) (now : Z) (name : string) (isHost : bool) :
  RangeOK E →
  reachable ls →
  participants ls = {[ pid := p ]} →
  let ls' := (Leave pid ls).1 in
  Leave pid ls = (ls', [CloseCh pid])
  ∧ participants ls' = ∅
  ∧ remoteHolder ls' = ""
  ∧ graceTimer ls' = true
  ∧ graceExpired ls' = [HubRemove (sessionID ls)]
  ∧ graceExpired (Join id now name isHost ls').1 = []
  ∧ remoteHolder (Join id now name isHost ls').1 = id.
Proof.
  intros Hrange Hreach Hps ls'.
  destruct (reachable_HolderInv ls Hreach) as (Hkeys & _ & _ & Hsome).
  assert (Hp : participants ls !! pid = Some p)
    by (rewrite Hps; apply lookup_singleton_eq).
  assert (Hid : Participant.ID p = pid) by by apply Hkeys.
  assert (Hholder : remoteHolder ls = pid).
  { destruct Hsome as [h Hh]; [by rewrite Hps; apply insert_non_empty|].
    rewrite Hps in Hh. by apply lookup_singleton_Some in Hh as [? _]. }
  assert (Hdel : delete pid (participants ls) = ∅)
    by (rewrite Hps; apply delete_singleton_eq).
  assert (Hleave : Leave pid ls
    = (set_graceTimer true
         (set_remoteHolder ""
            (set_participants ∅ ls)), [CloseCh pid])).
  { unfold Leave. rewrite Hp. simpl. rewrite Hholder, String.eqb_refl. simpl.
    rewrite Hdel.
    destruct (Nat.eqb_spec (size (∅ : gmap string Participant.t)) 0)
      as [_|Hnz]; [|exfalso; apply Hnz; apply map_size_empty].
    assert (Hf : findLongestConnected (set_participants ∅ ls) = "")
      by by apply findLongestConnected_empty.
    by rewrite Hf, Hid. }
  subst ls'. rewrite Hleave.
  cbn [fst participants sessionID remoteHolder graceTimer set_graceTimer
       set_remoteHolder set_participants].
  do 4 (split; [done|]). split; [|split].
  - unfold graceExpired.
    cbn [participants sessionID set_graceTimer set_remoteHolder
         set_participants].
    destruct (Nat.eqb_spec (size (∅ : gmap string Participant.t)) 0)
      as [_|Hnz]; [done|exfalso; apply Hnz; apply map_size_empty].
  - unfold graceExpired. rewrite Join_participants.
    destruct (Nat.eqb_spec
                (size (<[id := Participant.mk id name isHost now]>
                         (participants
                            (set_graceTimer true
                               (set_remoteHolder ""
                                  (set_participants ∅ ls)))))) 0)
      as [Hz|_]; [|done].
    apply map_size_empty_iff in Hz. by apply insert_non_empty in Hz.
  - unfold Join. simpl. done.
Qed.

Lemma last_leaver_arms_grace_timer_witness :
  let ls' := (@Leave plainExternal id_B soloDemo).1 in
  reachable soloDemo
  ∧ participants soloDemo = {[ id_B := part_B ]}
  ∧ @Leave plainExternal id_B soloDemo = (ls', [CloseCh id_B])
  ∧ graceTimer ls' = true
  ∧ @graceExpired ls' = [HubRemove "s1"]
  ∧ @graceExpired (Join id_D 40 "D" false ls').1 = []
  ∧ remoteHolder (Join id_D 40 "D" false ls').1 = id_D.
Proof.
  intros ls'.
  assert (Hreach : reachable soloDemo).
  { apply reach_Join; [reflexivity|].
    apply (reach_CreateSession plainExternal). }
  assert (Hps : participants soloDemo = {[ id_B := part_B ]}) by reflexivity.
  destruct (@last_leaver_arms_grace_timer plainExternal id_B part_B soloDemo
              id_D 40%Z "D" false (RangeOK_fixedExternal _ _ _ _ _ _)
              Hreach Hps)
    as (H1 & _ & _ & H4 & H5 & H6 & H7).
  split; [exact Hreach|]. split; [exact Hps|]. split; [exact H1|].
  split; [exact H4|]. split; [exact H5|]. split; [exact H6|exact H7].
Defined.

(** X11. Who holds the remote after a join, in a session that can arise:
    a host who joins always takes the remote, also from the participant
    who held it; the first to join an empty session takes it, host or
    not; a guest who joins a session with participants never does. The
    joiner is stored under its ID and every other participant is kept. *)
Theorem join_assigns_remote
    (id : string) (now : Z) (name : string) (isHost : bool)
    (ls : LiveSession) :
  reachable ls →
  let ls' := (Join id now name isHost ls).1 in
  let p := (Join id now name isHost ls).2 in
  p = Participant.mk id name isHost now
  ∧ participants ls' = <[id := p]> (participants ls)
  ∧ (isHost = true → remoteHolder ls' = id)
  ∧ (participants ls = ∅ → remoteHolder ls' = id)
  ∧ (isHost = false → participants ls ≠ ∅ →
     remoteHolder ls' = remoteHolder ls)
  ∧ graceTimer ls' = false.
Proof.
  intros Hreach.
  destruct (reachable_HolderInv ls Hreach) as (_ & Hnoempty & Hnone & Hsome).
  unfold Join. simpl.
  destruct (String.eqb_spec (remoteHolder ls) "") as [Hh|Hh]; simpl.
  - repeat split; try done.
    intros _ Hne. destruct (Hsome Hne) as [h Hh']. rewrite Hh in Hh'.
    congruence.
  - destruct isHost; simpl; repeat split; try done.
    intros Hempty. by apply Hnone in Hempty.
Qed.

Lemma join_assigns_remote_witness :
  reachable demo
  ∧ remoteHolder demo = id_A
  ∧ remoteHolder (Join id_D 40 "D" true demo).1 = id_D
  ∧ remoteHolder (Join id_D 40 "D" false demo).1 = id_A.
Proof.
  assert (Hne : participants demo ≠ ∅).
  { intros Hempty. assert (H : participants demo !! id_A = Some part_A)
      by reflexivity. by rewrite Hempty in H. }
  destruct (join_assigns_remote id_D 40%Z "D" true demo reachable_demo)
    as (_ & _ & Hhost & _).
  destruct (join_assigns_remote id_D 40%Z "D" false demo reachable_demo)
    as (_ & _ & _ & _ & Hguest & _).
  split; [apply reachable_demo|]. split; [reflexivity|].
  split; [exact (Hhost eq_refl)|]. exact (Hguest eq_refl Hne).
Defined.

(** ** Skipping, syncing and the remote *)

Section Dispatch2.
Context `{E : !External}.
Implicit Types (sender : Participant.t) (msg : WSMessage.t) (ls : LiveSession).

Lemma HandleMessage_skip_next sender msg ls :
  WSMessage.Action msg = "skip_next" →
  HandleMessage sender msg ls = handleSkipNext sender ls.
Proof. intros Ha. unfold HandleMessage. by rewrite Ha. Qed.

Lemma HandleMessage_skip_prev sender msg ls :
  WSMessage.Action msg = "skip_prev" →
  HandleMessage sender msg ls = handleSkipPrev sender ls.
Proof. intros Ha. unfold HandleMessage. by rewrite Ha. Qed.

Lemma HandleMessage_sync sender msg ls :
  WSMessage.Action msg = "sync" →
  HandleMessage sender msg ls = handleSync sender (WSMessage.Payload msg) ls.
Proof. intros Ha. unfold HandleMessage. by rewrite Ha. Qed.

Lemma HandleMessage_pass_remote sender msg ls :
  WSMessage.Action msg = "pass_remote" →
  HandleMessage sender msg ls
  = handlePassRemote sender (WSMessage.Payload msg) ls.
Proof. intros Ha. unfold HandleMessage. by rewrite Ha. Qed.

Lemma HandleMessage_accept_remote_request sender msg ls :
  WSMessage.Action msg = "accept_remote_request" →
  HandleMessage sender msg ls
  = handleAcceptRemoteRequest sender (WSMessage.Payload msg) ls.
Proof. intros Ha. unfold HandleMessage. by rewrite Ha. Qed.

Lemma HandleMessage_request_remote sender msg ls :
  WSMessage.Action msg = "request_remote" →
  HandleMessage sender msg ls = handleRequestRemote sender ls.
Proof. intros Ha. unfold HandleMessage. by rewrite Ha. Qed.

Lemma HandleMessage_queue_add sender msg ls :
  WSMessage.Action msg = "queue_add" →
  HandleMessage sender msg ls
  = handleQueueAdd sender (WSMessage.Payload msg) ls.
Proof. intros Ha. unfold HandleMessage. by rewrite Ha. Qed.

End Dispatch2.

(** X12. At the ends of the queue a skip from the remote holder is not an
    error and changes nothing: skip_next on the last track (or on an empty
    queue) and skip_prev on the first leave the session as it was; the
    state is broadcast all the same. *)
Theorem skip_at_the_ends `{E : !External}
    (sender : Participant.t) (next prev : WSMessage.t) (ls : LiveSession) :
  WSMessage.Action next = "skip_next" →
  WSMessage.Action prev = "skip_prev" →
  isRemoteHolder ls sender = true →
  ((Z.of_nat (length (queue ls)) - 1 ≤ currentIndex ls)%Z →
   HandleMessage sender next ls = (ls, broadcastState ls "skip_next"))
  ∧ ((currentIndex ls ≤ 0)%Z →
     HandleMessage sender prev ls = (ls, broadcastState ls "skip_prev")).
Proof.
  intros Hn Hp Hh. split; intros Hend.
  - rewrite HandleMessage_skip_next by done.
    unfold handleSkipNext. rewrite Hh. simpl.
    by destruct (Z.ltb_spec (currentIndex ls)
                   (Z.of_nat (length (queue ls)) - 1)); [lia|].
  - rewrite HandleMessage_skip_prev by done.
    unfold handleSkipPrev. rewrite Hh. simpl.
    by destruct (Z.ltb_spec 0 (currentIndex ls)); [lia|].
Qed.

Lemma skip_at_the_ends_witness :
  isRemoteHolder demo part_A = true
  ∧ currentIndex demo = 0%Z
  ∧ @HandleMessage plainExternal part_A (command "skip_prev") demo
    = (demo, @broadcastState plainExternal demo "skip_prev")
  ∧ (let last := (@HandleMessage plainExternal part_A (command "skip_next")
                    demoNext).1 in
     currentIndex last = 2%Z
     ∧ @HandleMessage plainExternal part_A (command "skip_next") last
       = (last, @broadcastState plainExternal last "skip_next")).
Proof.
  split; [reflexivity|]. split; [reflexivity|]. split.
  - apply (@skip_at_the_ends plainExternal part_A (command "skip_next")
             (command "skip_prev") demo eq_refl eq_refl eq_refl).
    vm_compute. discriminate.
  - intros last. split; [reflexivity|].
    apply (@skip_at_the_ends plainExternal part_A (command "skip_next")
             (command "skip_prev") last eq_refl eq_refl eq_refl).
    vm_compute. discriminate.
Defined.

(** X13. A skip_next from the remote holder that is not at the end moves
    to the next queue position and restarts at position 0; a skip_prev
    right after it returns to the position of the queue it came from. Both
    keep the play/pause flag and the queue; what is lost is the playback
    offset, which is 0 afterwards. *)
Theorem skip_next_then_prev `{E : !External}
    (sender : Participant.t) (next prev : WSMessage.t) (ls : LiveSession) :
  WSMessage.Action next = "skip_next" →
  WSMessage.Action prev = "skip_prev" →
  isRemoteHolder ls sender = true →
  (0 ≤ currentIndex ls < Z.of_nat (length (queue ls)) - 1)%Z →
  let ls1 := (HandleMessage sender next ls).1 in
  let ls2 := (HandleMessage sender prev ls1).1 in
  currentIndex ls1 = (currentIndex ls + 1)%Z
  ∧ position ls1 = 0%float
  ∧ isPlaying ls1 = isPlaying ls
  ∧ ls2 = set_position 0%float ls.
Proof.
  intros Hn Hp Hh Hin. simpl.
  rewrite (HandleMessage_skip_next sender next ls Hn).
  unfold handleSkipNext. rewrite Hh. simpl.
  destruct (Z.ltb_spec (currentIndex ls) (Z.of_nat (length (queue ls)) - 1));
    [|lia]. simpl.
  do 3 (split; [done|]).
  rewrite HandleMessage_skip_prev by done.
  unfold handleSkipPrev, isRemoteHolder in *. simpl. rewrite Hh. simpl.
  destruct (Z.ltb_spec 0 (currentIndex ls + 1)); [|lia]. simpl.
  unfold set_position, set_currentIndex. simpl. f_equal. lia.
Qed.

Lemma skip_next_then_prev_witness :
  let ls1 := (@HandleMessage plainExternal part_A (command "skip_next")
                demo).1 in
  let ls2 := (@HandleMessage plainExternal part_A (command "skip_prev")
                ls1).1 in
  isRemoteHolder demo part_A = true
  ∧ currentIndex demo = 0%Z
  ∧ currentIndex ls1 = 1%Z
  ∧ ls2 = set_position 0%float demo.
Proof.
  intros ls1 ls2.
  destruct (@skip_next_then_prev plainExternal part_A (command "skip_next")
              (command "skip_prev") demo eq_refl eq_refl eq_refl)
    as (H1 & _ & _ & H4).
  - vm_compute. split; [discriminate|reflexivity].
  - split; [reflexivity|]. split; [reflexivity|]. split; [exact H1|exact H4].
Defined.

(** X14. A sync never sends anything, whoever sends it and whatever its
    payload. From the remote holder it stores the position as sent and
    stores the track index only when it is a position of the queue: an
    out-of-range index is ignored while the position is still taken. A
    payload that does not decode changes nothing. *)
Theorem sync_is_silent `{E : !External}
    (sender : Participant.t) (msg : WSMessage.t) (ls : LiveSession) :
  WSMessage.Action msg = "sync" →
  let ls' := (HandleMessage sender msg ls).1 in
  let n := Z.of_nat (length (queue ls)) in
  (HandleMessage sender msg ls).2 = []
  ∧ (unmarshalSync (WSMessage.Payload msg) = None → ls' = ls)
  ∧ (∀ pos idx,
       isRemoteHolder ls sender = true →
       unmarshalSync (WSMessage.Payload msg) = Some (pos, idx) →
       position ls' = pos
       ∧ ((0 ≤ idx < n)%Z → currentIndex ls' = idx)
       ∧ (¬ (0 ≤ idx < n)%Z → currentIndex ls' = currentIndex ls)
       ∧ queue ls' = queue ls
       ∧ isPlaying ls' = isPlaying ls
       ∧ remoteHolder ls' = remoteHolder ls).
Proof.
  intros Ha. simpl. rewrite HandleMessage_sync by done. unfold handleSync.
  split; [|split].
  - repeat case_match; done.
  - intros ->. by destruct (negb _).
  - intros pos idx -> ->. simpl.
    destruct (Z.leb_spec 0 idx), (Z.ltb_spec idx (Z.of_nat (length (queue ls))));
      simpl; repeat split; try done; lia.
Qed.

Lemma sync_is_silent_witness :
  let ls' := (@HandleMessage (syncTo 42%float 7) part_A sync42at7 demo).1 in
  WSMessage.Action sync42at7 = "sync"
  ∧ isRemoteHolder demo part_A = true
  ∧ (@HandleMessage (syncTo 42%float 7) part_A sync42at7 demo).2 = []
  ∧ position ls' = 42%float
  ∧ currentIndex ls' = currentIndex demo.
Proof.
  intros ls'.
  destruct (@sync_is_silent (syncTo 42%float 7) part_A sync42at7 demo eq_refl)
    as (Hsilent & _ & Hholder).
  destruct (Hholder 42%float 7%Z eq_refl eq_refl) as (Hpos & _ & Hout & _).
  split; [reflexivity|]. split; [reflexivity|]. split; [exact Hsilent|].
  split; [exact Hpos|]. apply Hout. vm_compute. intros [_ H]. discriminate H.
Defined.

(** X15. Passing the remote. From the remote holder, with a payload that
    names a participant of the session, pass_remote makes that participant
    the holder, changes nothing else and sends the new holder to every
    participant; from then on the target passes the holder check and the
    previous holder, if it is someone else, does not. When the payload
    names nobody in the session, the only effect is an error to the sender
    and the holder stays. *)
Theorem pass_remote_transfers_authority `{E : !External}
    (sender : Participant.t) (msg : WSMessage.t) (target : string)
    (ls : LiveSession) :
  reachable ls →
  WSMessage.Action msg = "pass_remote" →
  isRemoteHolder ls sender = true →
  unmarshalParticipantID (WSMessage.Payload msg) = Some target →
  let ls' := (HandleMessage sender msg ls).1 in
  (participants ls !! target = None →
   HandleMessage sender msg ls
   = (ls, [TrySend (Participant.ID sender) (errorMsg "participant not found")]))
  ∧ (∀ tp, participants ls !! target = Some tp →
       HandleMessage sender msg ls
       = (set_remoteHolder target ls,
          broadcastRemote (set_remoteHolder target ls))
       ∧ isRemoteHolder ls' tp = true
       ∧ (Participant.ID sender ≠ target → isRemoteHolder ls' sender = false)).
Proof.
  intros Hreach Ha Hh Hp. simpl.
  destruct (reachable_HolderInv ls Hreach) as (Hkeys & _).
  rewrite HandleMessage_pass_remote by done.
  unfold handlePassRemote. rewrite Hh, Hp. simpl. split.
  - by intros ->.
  - intros tp Htp. rewrite Htp. simpl. split; [done|].
    unfold isRemoteHolder. simpl. split.
    + rewrite (Hkeys _ _ Htp). apply String.eqb_refl.
    + intros Hne. apply String.eqb_neq. congruence.
Qed.

Lemma pass_remote_transfers_authority_witness :
  let ls' := (@HandleMessage (passTo id_B) part_A passToB demo).1 in
  reachable demo
  ∧ isRemoteHolder demo part_A = true
  ∧ participants demo !! id_B = Some part_B
  ∧ remoteHolder ls' = id_B
  ∧ isRemoteHolder ls' part_B = true
  ∧ isRemoteHolder ls' part_A = false.
Proof.
  intros ls'.
  destruct (@pass_remote_transfers_authority (passTo id_B) part_A passToB
              id_B demo reachable_demo eq_refl eq_refl eq_refl) as [_ Hok].
  destruct (Hok part_B eq_refl) as (Heq & Hnew & Hold).
  split; [apply reachable_demo|]. do 2 (split; [reflexivity|]).
  split; [reflexivity|]. split; [exact Hnew|].
  apply Hold. discriminate.
Defined.

(** X16. accept_remote_request does what pass_remote does: for the same
    sender and payload the two commands leave the same session, and when
    they succeed they send the same messages; only the texts of their
    error messages differ. *)
Theorem accept_is_pass `{E : !External}
    (sender : Participant.t) (pass accept : WSMessage.t) (ls : LiveSession) :
  WSMessage.Action pass = "pass_remote" →
  WSMessage.Action accept = "accept_remote_request" →
  WSMessage.Payload accept = WSMessage.Payload pass →
  (HandleMessage sender accept ls).1 = (HandleMessage sender pass ls).1
  ∧ length (HandleMessage sender accept ls).2
    = length (HandleMessage sender pass ls).2
  ∧ (∀ target tp,
       isRemoteHolder ls sender = true →
       unmarshalParticipantID (WSMessage.Payload pass) = Some target →
       participants ls !! target = Some tp →
       HandleMessage sender accept ls = HandleMessage sender pass ls).
Proof.
  intros Hp Ha Hpayload.
  rewrite (HandleMessage_pass_remote sender pass ls Hp),
    (HandleMessage_accept_remote_request sender accept ls Ha).
  unfold handlePassRemote, handleAcceptRemoteRequest. rewrite Hpayload.
  split; [|split].
  - repeat case_match; simplify_eq/=; done.
  - repeat case_match; simplify_eq/=; done.
  - intros target tp -> -> ->. done.
Qed.

Lemma accept_is_pass_witness :
  WSMessage.Payload acceptB = WSMessage.Payload passToB
  ∧ isRemoteHolder demo part_A = true
  ∧ participants demo !! id_B = Some part_B
  ∧ @HandleMessage (passTo id_B) part_A acceptB demo
    = @HandleMessage (passTo id_B) part_A passToB demo.
Proof.
  destruct (@accept_is_pass (passTo id_B) part_A passToB acceptB demo
              eq_refl eq_refl eq_refl) as (_ & _ & Hsame).
  do 3 (split; [reflexivity|]).
  exact (Hsame id_B part_B eq_refl eq_refl eq_refl).
Defined.

(** X17. request_remote needs no authority and never changes the session.
    In a session that can arise and has participants, it sends exactly one
    message, to the current remote holder and to nobody else, of type
    remote_requested and carrying the ID and the name of the requester;
    with no participants it sends nothing. *)
Theorem request_remote_notifies_holder `{E : !External}
    (sender : Participant.t) (msg : WSMessage.t) (ls : LiveSession) :
  reachable ls →
  WSMessage.Action msg = "request_remote" →
  (HandleMessage sender msg ls).1 = ls
  ∧ (participants ls = ∅ → (HandleMessage sender msg ls).2 = [])
  ∧ (participants ls ≠ ∅ →
     (HandleMessage sender msg ls).2
     = [TrySend (remoteHolder ls)
          (WSMessage.mk "remote_requested" ""
             (PRemoteRequested (Participant.ID sender)
                (Participant.Name sender)))]).
Proof.
  intros Hreach Ha.
  destruct (reachable_HolderInv ls Hreach) as (Hkeys & _ & Hnone & Hsome).
  rewrite HandleMessage_request_remote by done. unfold handleRequestRemote.
  split; [|split].
  - by destruct (participants ls !! remoteHolder ls).
  - intros Hempty. rewrite Hempty, lookup_empty. done.
  - intros Hne. destruct (Hsome Hne) as [h Hh]. rewrite Hh. simpl.
    by rewrite (Hkeys _ _ Hh).
Qed.

Lemma request_remote_notifies_holder_witness :
  reachable demo
  ∧ participants demo ≠ ∅
  ∧ @HandleMessage plainExternal part_C (command "request_remote") demo
    = (demo, [TrySend id_A
                (WSMessage.mk "remote_requested" ""
                   (PRemoteRequested id_C "C"))]).
Proof.
  assert (Hne : participants demo ≠ ∅).
  { intros Hempty. assert (H : participants demo !! id_A = Some part_A)
      by reflexivity. by rewrite Hempty in H. }
  destruct (@request_remote_notifies_holder plainExternal part_C
              (command "request_remote") demo reachable_demo eq_refl)
    as (Hst & _ & Hmsg).
  split; [apply reachable_demo|]. split; [exact Hne|].
  rewrite (surjective_pairing (HandleMessage _ _ _)).
  rewrite Hst, (Hmsg Hne). reflexivity.
Defined.

(** ** Adding to the queue *)

(** X18. A queue_add from the remote holder for a media file that the
    library returns appends one track, built from that media file, to
    [tracks] and its index to the end of the queue; [currentIndex],
    [position] and [isPlaying] are untouched. In a session that can arise
    the current track stays the same when the queue was not empty, and the
    added track becomes the current one when it was. When the library does
    not return the media file, the session is unchanged and the sender
    gets the error "track not found". *)
Theorem queue_add_appends `{E : !External}
    (sender : Participant.t) (msg : WSMessage.t) (mediaFileID : string)
    (ls : LiveSession) :
  reachable ls →
  WSMessage.Action msg = "queue_add" →
  isRemoteHolder ls sender = true →
  unmarshalMediaFileID (WSMessage.Payload msg) = Some mediaFileID →
  let ls' := (HandleMessage sender msg ls).1 in
  (mediaFileGet mediaFileID = None →
   HandleMessage sender msg ls
   = (ls, [TrySend (Participant.ID sender) (errorMsg "track not found")]))
  ∧ (∀ mf, mediaFileGet mediaFileID = Some mf →
       let track := trackInfoOf mf (format ls) (maxBitRate ls) in
       TrackInfo.MediaFileID track = MediaFile.ID mf
       ∧ TrackInfo.Duration track = MediaFile.Duration mf
       ∧ tracks ls' = tracks ls ++ [track]
       ∧ queue ls' = queue ls ++ [length (tracks ls)]
       ∧ currentIndex ls' = currentIndex ls
       ∧ position ls' = position ls
       ∧ isPlaying ls' = isPlaying ls
       ∧ (queue ls ≠ [] → currentTrack ls' = currentTrack ls)
       ∧ (queue ls = [] → currentTrack ls' = Some track)
       ∧ (HandleMessage sender msg ls).2 = broadcastState ls' "queue_add").
Proof.
  intros Hreach Ha Hh Hp. simpl.
  rewrite HandleMessage_queue_add by done.
  unfold handleQueueAdd. rewrite Hh, Hp. simpl. split.
  - by intros ->.
  - intros mf ->. simpl. do 7 (split; [done|]). split; [|split; [|done]].
    + intros Hne.
      destruct (reachable_IndexInv ls Hreach) as [[Hlen _]|Hin].
      { destruct (queue ls); [done|discriminate]. }
      destruct (reachable_QueueInv ls Hreach) as [Hvalid _].
      unfold currentTrack, indexZ. simpl.
      destruct (Z.ltb_spec (currentIndex ls) 0); [lia|].
      destruct (lookup_lt_is_Some_2 (queue ls) (Z.to_nat (currentIndex ls)))
        as [idx Hidx]; [lia|].
      rewrite (lookup_app_l_Some _ _ _ _ Hidx), Hidx. simpl.
      rewrite lookup_app_l; [done|].
      rewrite Forall_forall in Hvalid. apply Hvalid.
      by eapply list_elem_of_lookup_2.
    + intros Hempty.
      destruct (reachable_IndexInv ls Hreach) as [[_ Hcur]|Hin];
        [|rewrite Hempty in Hin; simpl in Hin; lia].
      destruct (reachable_QueueInv ls Hreach) as [Hvalid _].
      unfold currentTrack, indexZ. simpl. rewrite Hcur, Hempty. simpl.
      rewrite lookup_app_r by lia. by rewrite Nat.sub_diag.
Qed.

Lemma queue_add_appends_witness :
  let env := library (Some (song "t3" 100%float)) in
  let ls' := (@HandleMessage env part_A addT3 demoNext).1 in
  reachable demoNext
  ∧ isRemoteHolder demoNext part_A = true
  ∧ queue ls' = [0; 1; 2; 3]
  ∧ (TrackInfo.ID <$> tracks ls') = ["t0"; "t1"; "t2"; "t3"]
  ∧ currentTrack ls' = currentTrack demoNext.
Proof.
  intros env ls'.
  assert (Hreach : reachable demoNext).
  { apply reach_HandleMessage;
      [apply RangeOK_fixedExternal|apply reachable_demo]. }
  destruct (@queue_add_appends env part_A addT3 "t3" demoNext Hreach
              eq_refl eq_refl eq_refl) as [_ Hok].
  destruct (Hok (song "t3" 100%float) eq_refl)
    as (_ & _ & Htracks & Hqueue & _ & _ & _ & Hcur & _).
  split; [exact Hreach|]. split; [reflexivity|].
  split; [exact Hqueue|]. split; [unfold ls'; by rewrite Htracks|].
  apply Hcur. discriminate.
Defined.

(** ** Broadcasts *)

Lemma sendAll_fan_out `{E : !External} (ls : LiveSession) (msg : WSMessage.t) :
  RangeOK E →
  reachable ls →
  sendAll ls msg
  ≡ₚ (λ k, TrySend k msg) <$> (map_to_list (participants ls)).*1.
Proof.
  intros Hrange (Hkeys & _)%reachable_HolderInv. unfold sendAll.
  rewrite <- (rangeOrder_ids (participants ls) Hrange Hkeys).
  rewrite <- list_fmap_compose. done.
Qed.

(** X19. In a session that can arise, each of the three broadcasts (state,
    participants, remote) is one send of one and the same message to every
    participant, and to nobody else, whatever the order in which Go visits
    the map; the remote message names the current holder. *)
Theorem broadcasts_reach_every_participant_once `{E : !External}
    (ls : LiveSession) (action : string) :
  RangeOK E →
  reachable ls →
  let keys := (map_to_list (participants ls)).*1 in
  NoDup keys
  ∧ (∀ k, k ∈ keys ↔ is_Some (participants ls !! k))
  ∧ (∃ msg, WSMessage.Type_ msg = "state"
            ∧ WSMessage.Payload msg = PState (stateOf ls action)
            ∧ broadcastState ls action ≡ₚ (λ k, TrySend k msg) <$> keys)
  ∧ (∃ msg, WSMessage.Type_ msg = "participants"
            ∧ broadcastParticipants ls ≡ₚ (λ k, TrySend k msg) <$> keys)
  ∧ (∃ msg name, WSMessage.Type_ msg = "remote"
            ∧ WSMessage.Payload msg
              = PRemote (RemotePayload.mk (remoteHolder ls) name)
            ∧ broadcastRemote ls ≡ₚ (λ k, TrySend k msg) <$> keys).
Proof.
  intros Hrange Hreach keys. split; [apply NoDup_fst_map_to_list|].
  split.
  { intros k. unfold keys. rewrite list_elem_of_fmap. split.
    - intros ([k' p] & -> & Hin). exists p. by apply elem_of_map_to_list.
    - intros [p Hp]. exists (k, p). split; [done|].
      by apply elem_of_map_to_list. }
  split; [|split].
  - eexists. split; [|split]; [| |by apply sendAll_fan_out]; done.
  - eexists. split; [|by apply sendAll_fan_out]. done.
  - eexists. eexists. split; [|split]; [| |by apply sendAll_fan_out]; done.
Qed.

Lemma broadcasts_reach_every_participant_once_witness :
  reachable demo
  ∧ size (participants demo) = 3
  ∧ ∃ msg, WSMessage.Type_ msg = "state"
           ∧ @broadcastState plainExternal demo "play"
             ≡ₚ (λ k, TrySend k msg) <$> (map_to_list (participants demo)).*1.
Proof.
  destruct (@broadcasts_reach_every_participant_once plainExternal demo "play"
              (RangeOK_fixedExternal _ _ _ _ _ _) reachable_demo)
    as (_ & _ & (msg & Hty & _ & Hstate) & _).
  split; [apply reachable_demo|]. split; [reflexivity|].
  exists msg. split; [exact Hty|exact Hstate].
Defined.

Lemma indexZ_fmap {A B} (f : A → B) (l : list A) (i : Z) :
  indexZ (f <$> l) i = f <$> indexZ l i.
Proof. unfold indexZ. destruct (_ <? _)%Z; [done|]. apply list_lookup_fmap. Qed.

(** X20. The state message of a session that can arise lists, position by
    position, the track that each queue entry stands for: entry [i] is
    [tracks[queue[i]]] (the zero track of the bounds check is never sent),
    and the entry at [currentTrackIndex] is the current track. *)
Theorem state_payload_resolves_queue (ls : LiveSession) (action : string) :
  reachable ls →
  let st := stateOf ls action in
  StatePayload.Action st = action
  ∧ StatePayload.CurrentTrackIndex st = currentIndex ls
  ∧ StatePayload.Position st = position ls
  ∧ StatePayload.IsPlaying st = isPlaying ls
  ∧ length (StatePayload.Queue st) = length (queue ls)
  ∧ (∀ i, StatePayload.Queue st !! i
          = queue ls !! i ≫= λ idx, tracks ls !! idx)
  ∧ indexZ (StatePayload.Queue st) (currentIndex ls) = currentTrack ls.
Proof.
  intros Hreach. simpl. do 4 (split; [done|]).
  destruct (reachable_QueueInv ls Hreach) as [Hvalid _].
  rewrite Forall_forall in Hvalid.
  assert (Hentry : ∀ i,
    map (λ idx, if idx <? length (tracks ls)
                then default TrackInfo.zero (tracks ls !! idx)
                else TrackInfo.zero) (queue ls) !! i
    = queue ls !! i ≫= λ idx, tracks ls !! idx).
  { intros i. change (map ?f ?l) with (f <$> l). rewrite list_lookup_fmap.
    destruct (queue ls !! i) as [idx|] eqn:Hi; [|done]. simpl.
    assert (Hlt : idx < length (tracks ls))
      by (apply Hvalid; by eapply list_elem_of_lookup_2).
    destruct (Nat.ltb_spec idx (length (tracks ls))); [|lia].
    by destruct (lookup_lt_is_Some_2 (tracks ls) idx Hlt) as [t ->]. }
  split; [by rewrite length_map|]. split; [done|].
  unfold currentTrack, indexZ.
  destruct (_ <? _)%Z; [done|]. apply Hentry.
Qed.

Lemma state_payload_resolves_queue_witness :
  reachable demoNext
  ∧ (TrackInfo.ID <$> StatePayload.Queue (stateOf demoNext "play"))
    = ["t0"; "t1"; "t2"]
  ∧ indexZ (StatePayload.Queue (stateOf demoNext "play"))
      (currentIndex demoNext) = currentTrack demoNext.
Proof.
  assert (Hreach : reachable demoNext).
  { apply reach_HandleMessage;
      [apply RangeOK_fixedExternal|apply reachable_demo]. }
  destruct (state_payload_resolves_queue demoNext "play" Hreach)
    as (_ & _ & _ & _ & _ & _ & Hcur).
  split; [exact Hreach|]. split; [reflexivity|]. exact Hcur.
Defined.

(** ** The hub's sessions *)

(** X22. [CreateSession] is idempotent on the session ID. After it the hub
    knows the ID; a second call for the same ID, whatever tracks its
    descriptor lists, returns the same session and changes nothing, so a
    live session is never reset; a call for an ID that the hub already
    knows leaves the whole world as it is; a call for a new ID stores the
    new session at an address that was free and touches no other session,
    no other ID, no channel and no connection. *)
Theorem create_session_is_idempotent `{E : !External}
    (session session' : ListenSession.t) (w : World) :
  ListenSession.ID session' = ListenSession.ID session →
  let w1 := (CreateSession session w).1 in
  let a := (CreateSession session w).2 in
  GetSession (hub w1) (ListenSession.ID session) = Some a
  ∧ CreateSession session' w1 = (w1, a)
  ∧ (∀ id, id ≠ ListenSession.ID session →
           GetSession (hub w1) id = GetSession (hub w) id)
  ∧ sendChs w1 = sendChs w
  ∧ closedConns w1 = closedConns w
  ∧ (is_Some (GetSession (hub w) (ListenSession.ID session)) → w1 = w)
  ∧ (GetSession (hub w) (ListenSession.ID session) = None →
     heap w !! a = None
     ∧ heap w1 !! a = Some (newLiveSession session)
     ∧ ∀ b, b ≠ a → heap w1 !! b = heap w !! b).
Proof.
  intros Hid. unfold CreateSession, GetSession.
  destruct (sessions (hub w) !! ListenSession.ID session) as [a0|] eqn:Hs;
    simpl.
  - rewrite Hid, Hs. by repeat split.
  - rewrite Hid, !lookup_insert_eq.
    do 2 (split; [done|]). split; [|do 2 (split; [done|]); split].
    + intros id Hne. by rewrite lookup_insert_ne.
    + by intros [? ?].
    + intros _. split; [apply not_elem_of_dom, is_fresh|]. split; [done|].
      intros b Hne. by rewrite lookup_insert_ne.
Qed.

Lemma create_session_is_idempotent_witness :
  let w1 := (@CreateSession plainExternal descriptor1 emptyWorld).1 in
  ListenSession.ID descriptor1' = ListenSession.ID descriptor1
  ∧ GetSession (hub emptyWorld) "s1" = None
  ∧ GetSession (hub w1) "s1" = Some 0
  ∧ heap w1 !! 0 = Some demo0
  ∧ @CreateSession plainExternal descriptor1' w1 = (w1, 0).
Proof.
  intros w1.
  destruct (@create_session_is_idempotent plainExternal descriptor1
              descriptor1' emptyWorld eq_refl)
    as (Hget & Hagain & _).
  split; [reflexivity|]. split; [reflexivity|]. split; [exact Hget|].
  split; [reflexivity|]. exact Hagain.
Defined.

(** ** The read loop and the WebSocket endpoint *)

Lemma readLoop_participants `{E : !External}
    (decode : string → option WSMessage.t) (p : Participant.t)
    (frames : list string) (ls : LiveSession) :
  participants (readLoop decode p frames ls).1 = participants ls.
Proof.
  revert ls. induction frames as [|frame frames IH]; intros ls; simpl.
  - done.
  - destruct (decode frame) as [msg|]; [|apply IH].
    destruct (HandleMessage p msg ls) as [ls1 effs] eqn:Hstep.
    specialize (IH ls1). destruct (readLoop decode p frames ls1). simpl in *.
    rewrite IH.
    replace ls1 with (HandleMessage p msg ls).1 by by rewrite Hstep.
    apply HandleMessage_participants.
Qed.

Lemma readLoop_reachable `{E : !External}
    (decode : string → option WSMessage.t) (p : Participant.t)
    (frames : list string) (ls : LiveSession) :
  RangeOK E → reachable ls → reachable (readLoop decode p frames ls).1.
Proof.
  intros Hrange. revert ls.
  induction frames as [|frame frames IH]; intros ls Hreach; simpl.
  - done.
  - destruct (decode frame) as [msg|]; [|by apply IH].
    destruct (HandleMessage p msg ls) as [ls1 effs] eqn:Hstep.
    assert (Hreach1 : reachable ls1).
    { replace ls1 with (HandleMessage p msg ls).1 by by rewrite Hstep.
      by apply reach_HandleMessage. }
    specialize (IH ls1 Hreach1). by destruct (readLoop decode p frames ls1).
Qed.

(** X23. Whatever frames a connection delivered before its read failed,
    when [ReadPump] returns its participant, and nobody else, has been
    removed from the session, and the last thing done is the closing of
    its connection; frames that do not decode are skipped, and the session
    is still one that can arise. *)
Theorem read_pump_ends_with_departure `{E : !External}
    (decode : string → option WSMessage.t) (p : Participant.t)
    (frames : list string) (ls : LiveSession) :
  RangeOK E →
  reachable ls →
  let out := ReadPump decode p frames ls in
  participants out.1 = delete (Participant.ID p) (participants ls)
  ∧ last out.2 = Some (ConnClose (Participant.ID p))
  ∧ reachable out.1
  ∧ (∀ frame, decode frame = None →
       ReadPump decode p (frame :: frames) ls = out).
Proof.
  intros Hrange Hreach out. subst out. unfold ReadPump.
  assert (Hps := readLoop_participants decode p frames ls).
  assert (Hre := readLoop_reachable decode p frames ls Hrange Hreach).
  destruct (readLoop decode p frames ls) as [ls1 effs] eqn:Hloop.
  simpl in Hps, Hre.
  assert (Hleave := Leave_participants (Participant.ID p) ls1).
  assert (Hre' := reach_Leave E (Participant.ID p) ls1 Hrange Hre).
  destruct (Leave (Participant.ID p) ls1) as [ls2 effs2] eqn:HL.
  simpl in *. split; [by rewrite Hleave, Hps|]. split; [|split; [done|]].
  - by rewrite !app_assoc, last_snoc.
  - intros frame ->. by rewrite Hloop, HL.
Qed.

Lemma read_pump_ends_with_departure_witness :
  let out := @ReadPump plainExternal
               (λ frame, if String.eqb frame "play" then Some (command "play")
                         else None)
               part_B ["play"; "garbage"; "play"] demo in
  reachable demo
  ∧ participants demo !! id_B = Some part_B
  ∧ participants out.1 = delete id_B (participants demo)
  ∧ last out.2 = Some (ConnClose id_B).
Proof.
  intros out.
  destruct (@read_pump_ends_with_departure plainExternal
              (λ frame, if String.eqb frame "play" then Some (command "play")
                        else None)
              part_B ["play"; "garbage"; "play"] demo
              (RangeOK_fixedExternal _ _ _ _ _ _) reachable_demo)
    as (Hps & Hlast & _).
  split; [apply reachable_demo|]. split; [reflexivity|].
  split; [exact Hps|exact Hlast].
Defined.

(** ** The client's reconnection *)

(** X24. The delay before the client's reconnection attempt number [n]
    (counted from 0) is 1000 ms doubled [n] times and capped at 30000 ms:
    it is 1, 2, 4, 8 and 16 s for the first five attempts and 30 s from
    the sixth on, never below 1 s, never above 30 s and never shorter than
    the delay before. *)
Theorem reconnect_delay_doubles_up_to_cap (n m : nat) :
  (Client.INITIAL_RECONNECT_DELAY ≤ Client.reconnectDelay n
   ≤ Client.MAX_RECONNECT_DELAY)%Z
  ∧ (n ≤ m → (Client.reconnectDelay n ≤ Client.reconnectDelay m)%Z)
  ∧ (n < 5 → Client.reconnectDelay n = (1000 * 2 ^ Z.of_nat n)%Z)
  ∧ (5 ≤ n → Client.reconnectDelay n = 30000%Z).
Proof.
  unfold Client.reconnectDelay, Client.INITIAL_RECONNECT_DELAY,
    Client.MAX_RECONNECT_DELAY.
  assert (Hpow : ∀ k : nat, (1 ≤ 2 ^ Z.of_nat k)%Z).
  { intros k. apply (Z.pow_le_mono_r 2 0 (Z.of_nat k)); lia. }
  assert (Hmono : ∀ a b : nat, a ≤ b → (2 ^ Z.of_nat a ≤ 2 ^ Z.of_nat b)%Z).
  { intros a b Hab. apply Z.pow_le_mono_r; lia. }
  split; [|split; [|split]].
  - specialize (Hpow n). lia.
  - intros Hnm. specialize (Hmono n m Hnm). lia.
  - intros Hn.
    assert (Hle : (2 ^ Z.of_nat n ≤ 2 ^ Z.of_nat 4)%Z) by (apply Hmono; lia).
    change (2 ^ Z.of_nat 4)%Z with 16%Z in Hle. lia.
  - intros Hn.
    assert (Hge : (2 ^ Z.of_nat 5 ≤ 2 ^ Z.of_nat n)%Z) by (apply Hmono; lia).
    change (2 ^ Z.of_nat 5)%Z with 32%Z in Hge. lia.
Qed.

Lemma reconnect_delay_doubles_up_to_cap_witness :
  (Client.reconnectDelay <$> [0; 1; 2; 3; 4; 5; 6; 1100])
  = [1000; 2000; 4000; 8000; 16000; 30000; 30000; 30000]%Z.
Proof.
  destruct (reconnect_delay_doubles_up_to_cap 1100 1100) as (_ & _ & _ & Hcap).
  simpl. rewrite Hcap by lia. reflexivity.
Defined.

Lemma onclose_iter_intentional (k : nat) (c : Client.t) :
  Client.intentionalClose c = true →
  Nat.iter k Client.onclose c
  = match k with
    | 0 => c
    | S _ => Client.mk (Client.ws c) (Client.reconnectAttempts c)
               (Client.reconnectTimer c) false true
    end.
Proof.
  intros Hint. induction k as [|k IH]; [done|]. simpl. rewrite IH.
  destruct k; unfold Client.onclose; simpl; rewrite ?Hint; simpl; [|done].
  by rewrite <- Hint.
Qed.

(** X25. The client's reconnection state machine. After [disconnect] no
    closing of the socket schedules a reconnection: the timer stays clear
    and the attempt counter stays as it was. Without [disconnect], the
    [k]-th closing in a row schedules the delay of attempt [k-1] past the
    attempts counted so far, and an opened connection resets the counter,
    so the closing that follows it waits 1000 ms. *)
Theorem client_reconnects_unless_disconnected (k : nat) (c : Client.t) :
  let after_disconnect := Nat.iter k Client.onclose (Client.disconnect c) in
  Client.reconnectTimer after_disconnect = None
  ∧ Client.reconnectAttempts after_disconnect = Client.reconnectAttempts c
  ∧ Client.connected after_disconnect = false
  ∧ (Client.intentionalClose c = false →
     let closed := Nat.iter (S k) Client.onclose c in
     Client.reconnectAttempts closed = Client.reconnectAttempts c + S k
     ∧ Client.reconnectTimer closed
       = Some (Client.reconnectDelay (Client.reconnectAttempts c + k))
     ∧ Client.reconnectTimer (Client.onclose (Client.onopen closed))
       = Some 1000%Z).
Proof.
  simpl. rewrite onclose_iter_intentional by done.
  split; [by destruct k|]. split; [by destruct k|]. split; [by destruct k|].
  intros Hint.
  assert (Hiter : ∀ j,
    Nat.iter (S j) Client.onclose c
    = Client.mk (Client.ws c) (Client.reconnectAttempts c + S j)
        (Some (Client.reconnectDelay (Client.reconnectAttempts c + j)))
        false false).
  { induction j as [|j IH].
    - simpl. unfold Client.onclose, Client.scheduleReconnect. simpl.
      rewrite Hint. simpl. by rewrite !Nat.add_0_r, Nat.add_1_r.
    - change (Nat.iter (S (S j)) Client.onclose c)
        with (Client.onclose (Nat.iter (S j) Client.onclose c)).
      rewrite IH. unfold Client.onclose, Client.scheduleReconnect. simpl.
      by rewrite !Nat.add_succ_r. }
  change (Client.onclose (Nat.iter k Client.onclose c))
    with (Nat.iter (S k) Client.onclose c).
  rewrite Hiter. simpl. by repeat split.
Qed.

Lemma client_reconnects_unless_disconnected_witness :
  let c := Client.onopen (Client.connect false Client.new) in
  Client.intentionalClose c = false
  ∧ Client.reconnectTimer (Nat.iter 3 Client.onclose c) = Some 4000%Z
  ∧ Client.reconnectTimer (Nat.iter 3 Client.onclose (Client.disconnect c))
    = None.
Proof.
  intros c.
  destruct (client_reconnects_unless_disconnected 2 c)
    as (_ & _ & _ & Hopen).
  destruct (client_reconnects_unless_disconnected 3 c) as (Hnone & _).
  destruct (Hopen eq_refl) as (_ & Htimer & _).
  split; [reflexivity|]. split; [exact Htimer|exact Hnone].
Defined.

(** ** Connecting *)

Lemma performAll_app (effs1 effs2 : list Effect) (w : World) :
  performAll (effs1 ++ effs2) w = performAll effs1 w ≫= performAll effs2.
Proof.
  revert w. induction effs1 as [|eff effs1 IH]; intros w; simpl; [done|].
  destruct (perform eff w); simpl; [apply IH|done].
Qed.

Lemma perform_TrySend_room (k : string) (msg : WSMessage.t) (c : Chan.t)
    (w : World) :
  sendChs w !! k = Some c →
  Chan.closed c = false →
  length (Chan.buf c) < sendChannelSize →
  perform (TrySend k msg) w
  = Some (mkWorld (hub w) (heap w)
            (<[k := Chan.mk (Chan.buf c ++ [msg]) false]> (sendChs w))
            (closedConns w)).
Proof.
  intros Hc Hopen Hroom. simpl. rewrite Hc. simpl. unfold trySend.
  rewrite Hopen. by destruct (Nat.ltb_spec (length (Chan.buf c)) sendChannelSize);
    [|lia].
Qed.

(** One send of [msg] to each of the channels [ids], all open. *)
Lemma performAll_send_each (ids : list string) (msg : WSMessage.t) (w : World) :
  NoDup ids →
  (∀ k, k ∈ ids → ∃ c, sendChs w !! k = Some c ∧ Chan.closed c = false) →
  ∃ w', performAll ((λ k, TrySend k msg) <$> ids) w = Some w'
        ∧ hub w' = hub w
        ∧ heap w' = heap w
        ∧ closedConns w' = closedConns w
        ∧ (∀ k, sendChs w' !! k
                = if decide (k ∈ ids)
                  then sendChs w !! k ≫= trySend msg
                  else sendChs w !! k).
Proof.
  revert w. induction ids as [|id ids IH]; intros w Hnodup Hopen.
  - exists w. do 4 (split; [done|]).
    intros k. case_decide as Hk; [by apply elem_of_nil in Hk|done].
  - simpl. apply NoDup_cons in Hnodup as [Hfresh Hnodup].
    destruct (Hopen id) as (c & Hc & Hcopen); [apply list_elem_of_here|].
    destruct (trySend_open msg c Hcopen) as (c' & Hsend & Hc'open & _).
    rewrite Hc. simpl. rewrite Hsend. simpl.
    set (w2 := mkWorld (hub w) (heap w) (<[id := c']> (sendChs w))
                 (closedConns w)).
    destruct (IH w2) as (w' & Hrun & Hhub & Hheap & Hclosed & Hchs).
    { done. }
    { intros k Hk. simpl.
      assert (k ≠ id) by (intros ->; done).
      rewrite lookup_insert_ne by done.
      apply Hopen. by apply list_elem_of_further. }
    exists w'. do 4 (split; [done|]).
    intros k. rewrite Hchs. simpl.
    destruct (decide (k = id)) as [->|Hne].
    + rewrite lookup_insert_eq, Hc. simpl.
      rewrite decide_False by done.
      rewrite decide_True by apply list_elem_of_here. done.
    + rewrite lookup_insert_ne by done.
      destruct (decide (k ∈ ids)) as [Hin|Hnin].
      * by rewrite decide_True by by apply list_elem_of_further.
      * rewrite decide_False; [done|].
        by intros [?|?]%elem_of_cons.
Qed.

Lemma performAll_send_many (k : string) (msgs : list WSMessage.t)
    (c : Chan.t) (w : World) :
  sendChs w !! k = Some c →
  Chan.closed c = false →
  length (Chan.buf c) + length msgs ≤ sendChannelSize →
  performAll (TrySend k <$> msgs) w
  = Some (mkWorld (hub w) (heap w)
            (<[k := Chan.mk (Chan.buf c ++ msgs) false]> (sendChs w))
            (closedConns w)).
Proof.
  revert c w. induction msgs as [|msg msgs IH]; intros c w Hc Hopen Hroom.
  - simpl. rewrite app_nil_r. destruct c as [buf closed]. simpl in *.
    subst closed. rewrite (insert_id _ _ _ Hc). by destruct w.
  - change (TrySend k <$> msg :: msgs)
      with (TrySend k msg :: (TrySend k <$> msgs)).
    cbn [performAll]. simpl in Hroom.
    rewrite (perform_TrySend_room k msg c w Hc Hopen) by lia.
    cbn [mbind option_bind].
    rewrite (IH (Chan.mk (Chan.buf c ++ [msg]) false));
      [|apply lookup_insert_eq|done|simpl; rewrite length_app; simpl; lia].
    simpl. by rewrite insert_insert_eq, <- app_assoc.
Qed.

(** X26. A client that connects to a session the hub knows, with a fresh
    ID and over a connection that upgrades, becomes a participant named by
    its query parameter, or "Guest" when that is empty, and host exactly
    when the parameter says "true". Its send queue, new and empty, then
    holds the welcome burst in this order: welcome (with its own ID),
    state, participants, remote, followed by the participants and remote
    broadcasts. Every participant who was already there is offered the
    participants and then the remote broadcast. *)
Theorem websocket_join_delivers_welcome_burst `{E : !External}
    (load : string → option ListenSession.t) (uuid : string) (now : Z)
    (id name host : string) (a : nat) (ls : LiveSession) (w : World) :
  RangeOK E →
  isUUID uuid →
  GetSession (hub w) id = Some a →
  heap w !! a = Some ls →
  reachable ls →
  participants ls !! uuid = None →
  (∀ k p, participants ls !! k = Some p →
          ∃ c, sendChs w !! k = Some c ∧ Chan.closed c = false) →
  let name' := if String.eqb name "" then "Guest" else name in
  let isHost := String.eqb host "true" in
  let p := Participant.mk uuid name' isHost now in
  let ls' := (Join uuid now name' isHost ls).1 in
  ∃ w', handleWebSocket load true uuid now id name host w
        = Some (w', WsConnected p a)
        ∧ hub w' = hub w
        ∧ heap w' !! a = Some ls'
        ∧ participants ls' !! uuid = Some p
        ∧ (∃ c, sendChs w' !! uuid = Some c
                ∧ Chan.closed c = false
                ∧ (WSMessage.Type_ <$> Chan.buf c)
                  = ["welcome"; "state"; "participants"; "remote";
                     "participants"; "remote"]
                ∧ (WSMessage.Payload <$> head (Chan.buf c))
                  = Some (PWelcome uuid))
        ∧ (∃ mp mr, WSMessage.Type_ mp = "participants"
                    ∧ WSMessage.Type_ mr = "remote"
                    ∧ ∀ k q, participants ls !! k = Some q →
                        sendChs w' !! k
                        = (sendChs w !! k ≫= trySend mp) ≫= trySend mr).
Proof.
  intros Hrange Huuid Hget Hheap Hreach Hfresh Hopen name' isHost p ls'.
  assert (Hreach' : reachable ls') by by apply reach_Join.
  destruct (reachable_HolderInv ls' Hreach') as (Hkeys' & _).
  assert (Hps' : participants ls' = <[uuid := p]> (participants ls))
    by apply Join_participants.
  assert (Hjoin : Join uuid now name' isHost ls = (ls', p)).
  { subst ls' p. unfold Join. simpl. by destruct (_ || _). }
  set (ids := Participant.ID <$> rangeOrder (participants ls')).
  assert (Hnodup : NoDup ids).
  { unfold ids. rewrite (rangeOrder_ids _ Hrange Hkeys').
    apply NoDup_fst_map_to_list. }
  assert (Hids : ∀ k, k ∈ ids ↔ k = uuid ∨ is_Some (participants ls !! k)).
  { intros k. unfold ids. rewrite (rangeOrder_ids _ Hrange Hkeys').
    rewrite list_elem_of_fmap. split.
    - intros ([k' q] & -> & Hin%elem_of_map_to_list). simpl.
      rewrite Hps' in Hin.
      apply lookup_insert_Some in Hin as [[-> _]|[_ Hin]]; eauto.
    - intros Hk.
      assert (Hsome : is_Some (participants ls' !! k)).
      { rewrite Hps'. apply lookup_insert_is_Some'.
        destruct Hk as [->|Hk]; auto. }
      destruct Hsome as [q Hq]. exists (k, q). split; [done|].
      by apply elem_of_map_to_list. }
  assert (Hall : ∀ msg, sendAll ls' msg = (λ k, TrySend k msg) <$> ids).
  { intros msg. unfold sendAll, ids. by rewrite <- list_fmap_compose. }
  unfold handleWebSocket. rewrite Hget.
  cbn -[Join performAll SendWelcome broadcastParticipants broadcastRemote].
  rewrite Hheap.
  cbn -[Join performAll SendWelcome broadcastParticipants broadcastRemote].
  fold name' isHost. rewrite Hjoin.
  set (w0 := mkWorld (hub w) (<[a := ls']> (heap w))
               (<[uuid := Chan.make]> (sendChs w))
               (closedConns w ∖ {[uuid]})).
  rewrite performAll_app.
  (* the four messages of SendWelcome *)
  unfold SendWelcome.
  set (m1 := WSMessage.mk "welcome" "" (PWelcome (Participant.ID p))).
  set (m2 := WSMessage.mk "state" "" (PState (stateOf ls' "welcome"))).
  set (m3 := WSMessage.mk "participants" "" _).
  set (m4 := WSMessage.mk "remote" "" _).
  set (c4 := Chan.mk [m1; m2; m3; m4] false).
  set (w4 := mkWorld (hub w) (<[a := ls']> (heap w))
               (<[uuid := c4]> (sendChs w)) (closedConns w ∖ {[uuid]})).
  assert (Hburst :
    performAll [TrySend (Participant.ID p) m1; TrySend (Participant.ID p) m2;
                TrySend (Participant.ID p) m3; TrySend (Participant.ID p) m4]
      w0 = Some w4).
  { change (Participant.ID p) with uuid.
    change [TrySend uuid m1; TrySend uuid m2; TrySend uuid m3;
            TrySend uuid m4]
      with (TrySend uuid <$> [m1; m2; m3; m4]).
    rewrite (performAll_send_many uuid [m1; m2; m3; m4] Chan.make w0);
      [|apply lookup_insert_eq|done|simpl; unfold sendChannelSize; lia].
    unfold w0, w4. simpl. by rewrite insert_insert_eq. }
  rewrite Hburst. cbn [mbind option_bind]. rewrite performAll_app.
  (* the two broadcasts *)
  unfold broadcastParticipants, broadcastRemote. rewrite !Hall.
  set (mp := WSMessage.mk "participants" "" _).
  set (mr := WSMessage.mk "remote" "" _).
  assert (Hopen4 : ∀ k, k ∈ ids →
            ∃ c, sendChs w4 !! k = Some c ∧ Chan.closed c = false).
  { intros k [->|[q Hq]]%Hids; simpl.
    - rewrite lookup_insert_eq. eauto.
    - assert (k ≠ uuid) by (intros ->; congruence).
      rewrite lookup_insert_ne by done. eauto. }
  destruct (performAll_send_each ids mp w4 Hnodup Hopen4)
    as (w5 & Hrun5 & Hhub5 & Hheap5 & _ & Hchs5).
  rewrite Hrun5. cbn [mbind option_bind].
  assert (Hopen5 : ∀ k, k ∈ ids →
            ∃ c, sendChs w5 !! k = Some c ∧ Chan.closed c = false).
  { intros k Hk. rewrite Hchs5, decide_True by done.
    destruct (Hopen4 k Hk) as (c & -> & Hcopen). simpl.
    destruct (trySend_open mp c Hcopen) as (c' & -> & ? & _). eauto. }
  destruct (performAll_send_each ids mr w5 Hnodup Hopen5)
    as (w6 & Hrun6 & Hhub6 & Hheap6 & _ & Hchs6).
  rewrite Hrun6. cbn [mbind option_bind].
  exists w6. split; [done|]. split; [by rewrite Hhub6, Hhub5|].
  split; [rewrite Hheap6, Hheap5; simpl; apply lookup_insert_eq|].
  split; [rewrite Hps'; apply lookup_insert_eq|]. split.
  - assert (Hin : uuid ∈ ids) by (apply Hids; auto).
    eexists. split.
    { rewrite Hchs6, decide_True by done.
      rewrite Hchs5, decide_True by done.
      simpl. rewrite lookup_insert_eq. simpl. reflexivity. }
    simpl. by repeat split.
  - exists mp, mr. do 2 (split; [done|]). intros k q Hq.
    assert (Hin : k ∈ ids) by (apply Hids; eauto).
    assert (k ≠ uuid) by (intros ->; congruence).
    rewrite Hchs6, decide_True by done.
    rewrite Hchs5, decide_True by done.
    simpl. by rewrite lookup_insert_ne.
Qed.

Lemma websocket_join_delivers_welcome_burst_witness :
  ∃ w' c,
    @handleWebSocket plainExternal (λ _, None) true id_D 40 "s1" "" "true"
      demoWorld
    = Some (w', WsConnected (Participant.mk id_D "Guest" true 40) 0)
    ∧ sendChs w' !! id_D = Some c
    ∧ length (Chan.buf c) = 6
    ∧ size (sendChs w') = 4.
Proof.
  assert (Hps : participants demo
                = <[id_C := part_C]>
                    (<[id_B := part_B]> (<[id_A := part_A]> ∅)))
    by reflexivity.
  destruct (@websocket_join_delivers_welcome_burst plainExternal
              (λ _, None) id_D 40 "s1" "" "true" 0 demo demoWorld
              (RangeOK_fixedExternal _ _ _ _ _ _) eq_refl eq_refl eq_refl
              reachable_demo eq_refl)
    as (w' & Hrun & _ & _ & _ & (c & Hc & _ & Htypes & _) & _).
  { intros k p Hp. rewrite Hps in Hp.
    repeat (apply lookup_insert_Some in Hp as [[<- _]|[_ Hp]];
            [eexists; split; reflexivity|]).
    by rewrite lookup_empty in Hp. }
  exists w', c. split; [exact Hrun|]. split; [exact Hc|].
  split.
  { apply (f_equal length) in Htypes. by rewrite length_fmap in Htypes. }
  assert (Hw' : @handleWebSocket plainExternal (λ _, None) true id_D 40
                  "s1" "" "true" demoWorld ≫= (λ r, Some (size (sendChs r.1)))
                = Some 4) by (vm_compute; reflexivity).
  rewrite Hrun in Hw'. simpl in Hw'. by injection Hw'.
Defined.

(** X27. A connection attempt that fails joins nobody and sends nothing.
    For a session that the hub does not know and the store cannot load,
    the answer is "not found" and nothing changes at all. When the store
    does load it (under the ID asked for) but the upgrade of the connection
    fails, the channels and connections are untouched and every live
    session is as it was, while the hub now holds a new live session for
    that ID: it has no participant and no grace timer, so nothing will
    remove it until somebody joins it and leaves. *)
Theorem failed_connection_joins_nobody `{E : !External}
    (load : string → option ListenSession.t) (upgraded : bool)
    (uuid : string) (now : Z) (id name host : string) (w : World) :
  GetSession (hub w) id = None →
  (load id = None →
     handleWebSocket load upgraded uuid now id name host w
     = Some (w, WsNotFound))
  ∧ (∀ session,
       load id = Some session →
       ListenSession.ID session = id →
       ∃ w' a ls,
         handleWebSocket load false uuid now id name host w
         = Some (w', WsUpgradeFailed)
         ∧ sendChs w' = sendChs w
         ∧ closedConns w' = closedConns w
         ∧ (∀ b ls0, heap w !! b = Some ls0 → heap w' !! b = Some ls0)
         ∧ (∀ k, k ≠ id → GetSession (hub w') k = GetSession (hub w) k)
         ∧ GetSession (hub w') id = Some a
         ∧ heap w !! a = None
         ∧ heap w' !! a = Some ls
         ∧ participants ls = ∅
         ∧ graceTimer ls = false).
Proof.
  intros Hget. split.
  - intros Hload. unfold handleWebSocket. by rewrite Hget, Hload.
  - intros session Hload Hid. unfold handleWebSocket, GetSession in *.
    rewrite Hget, Hload. unfold CreateSession. rewrite Hid, Hget. simpl.
    set (a := fresh (dom (heap w))).
    assert (Hfresh : heap w !! a = None).
    { apply not_elem_of_dom. apply is_fresh. }
    eexists. exists a, (newLiveSession session).
    split; [reflexivity|]. simpl.
    do 2 (split; [done|]). split.
    { intros b ls0 Hb. rewrite lookup_insert_ne; [done|]. congruence. }
    split; [intros k Hk; by rewrite lookup_insert_ne|].
    split; [apply lookup_insert_eq|]. split; [done|].
    split; [apply lookup_insert_eq|]. done.
Qed.

Lemma failed_connection_joins_nobody_witness :
  let load := λ id, if String.eqb id "s1" then Some descriptor1 else None in
  @handleWebSocket plainExternal load true id_D 40 "s2" "D" "" emptyWorld
  = Some (emptyWorld, WsNotFound)
  ∧ ∃ w', @handleWebSocket plainExternal load false id_D 40 "s1" "D" ""
            emptyWorld
          = Some (w', WsUpgradeFailed)
          ∧ sendChs w' = ∅
          ∧ is_Some (GetSession (hub w') "s1").
Proof.
  intros load.
  destruct (@failed_connection_joins_nobody plainExternal load true id_D 40
              "s2" "D" "" emptyWorld eq_refl) as [Hnone _].
  destruct (@failed_connection_joins_nobody plainExternal load false id_D 40
              "s1" "D" "" emptyWorld eq_refl) as [_ Hfail].
  destruct (Hfail descriptor1 eq_refl eq_refl)
    as (w' & a & ls & Hrun & Hchs & _ & _ & _ & Ha & _).
  split; [exact (Hnone eq_refl)|].
  exists w'. split; [exact Hrun|]. split; [exact Hchs|]. by exists a.
Defined.
